(** * resourcemanager/identity: SystemOrSingleUserAssignedMap

    A shallow embedding of
    [resourcemanager/identity/system_or_single_user_assigned_map.go]:
    the custom JSON marshaller, the two Expand functions and the two
    Flatten functions, followed by the properties of the identity
    converter that the specification states about them. *)

From Stdlib Require Import Ascii String.
From stdpp Require Import gmap strings list fin_maps.

Set Warnings "-register-all,-clear-no-such-hyp".
Local Open Scope string_scope.

(** ** Go values *)

(** Go's [interface{}] restricted to the dynamic types that reach this
    file.  [IMap] is a [map[string]interface{}], [ISet l] a non-nil
    [*schema.Set] whose [List()] returns [l], [ISetNil] a nil
    [*schema.Set], [IStrings] a [[]string]; [IOther] stands for a value
    of any other dynamic type (numbers, booleans, ...). *)
Inductive iface : Type :=
| INil
| IString (s : string)
| IStrings (l : list string)
| IMap (m : gmap string iface)
| ISet (l : list iface)
| ISetNil
| IOther.

(** The document handed to [json.Marshal]: [null], a string or an
    object. *)
Inductive json : Type :=
| JNull
| JString (s : string)
| JObject (fields : gmap string json).

(** What a Go call does: it returns its value with a nil error, returns
    a non-nil error (modelled by its message), or panics. *)
Inductive outcome (A : Type) : Type :=
| Returned (a : A)
| Failed (msg : string)
| Panicked.
Arguments Returned {A} a.
Arguments Failed {A} msg.
Arguments Panicked {A}.

(** The result of a Go function of type [(T, error)] that cannot
    panic; an error is modelled by its message. *)
Inductive go_result (A : Type) : Type :=
| Ok (a : A)
| Err (msg : string).
Arguments Ok {A} a.
Arguments Err {A} msg.

(** ** The [%q] verb

    [fmt.Errorf] renders a string argument of [%q] with
    [strconv.Quote]: the text is put between double quotes, a double
    quote or a backslash inside it is preceded by a backslash, a
    printable ASCII byte stands for itself, and a control byte is
    written as an escape.  The definition is Go's on the strings of
    ASCII bytes ([asciiOnly]).  Go decodes the bytes from 0x80 on as
    UTF-8 and consults its tables of printable runes, which are not
    modelled: such bytes are copied here, and the theorems about the
    converter use the quoted form of a string of ASCII bytes only. *)
Definition dquote : ascii := ascii_of_nat 34.
Definition backslash : ascii := ascii_of_nat 92.

Definition lowerhex (n : nat) : ascii :=
  nth n (list_ascii_of_string "0123456789abcdef") "0"%char.

Definition quoteByte (c : ascii) : string :=
  let n := nat_of_ascii c in
  if decide (n = 34) then String backslash (String c "")
  else if decide (n = 92) then String backslash (String c "")
  else if decide (n = 7) then "\a"
  else if decide (n = 8) then "\b"
  else if decide (n = 12) then "\f"
  else if decide (n = 10) then "\n"
  else if decide (n = 13) then "\r"
  else if decide (n = 9) then "\t"
  else if decide (n = 11) then "\v"
  else if decide (n < 32 \/ n = 127)
       then String backslash (String "x" (String (lowerhex (n / 16)) (String (lowerhex (n mod 16)) "")))
  else String c "".

Fixpoint quoteBody (s : string) : string :=
  match s with
  | EmptyString => ""
  | String c rest => quoteByte c ++ quoteBody rest
  end.

Definition strconv_Quote (s : string) : string :=
  String dquote (quoteBody s ++ String dquote "").

(** [contains s sub]: [sub] occurs in [s] (Go's [strings.Contains]). *)
Fixpoint contains (s sub : string) : bool :=
  String.prefix sub s
  || match s with
     | EmptyString => false
     | String _ rest => contains rest sub
     end.




(** ** The identity kinds *)

(** Modelled from the spec: the constants of the string type [Type] are
    declared in another file of the package; section 6 of the
    specification fixes their literals on the wire. *)
Definition TypeNone : string := "None".
Definition TypeSystemAssigned : string := "SystemAssigned".
Definition TypeUserAssigned : string := "UserAssigned".

Section Converter.

(** [UserAssignedIdentityDetails] is declared in another file of the
    package: the type is a parameter, together with the value of the
    composite literal [UserAssignedIdentityDetails{}] and the document
    [json.Marshal] writes for a value of the type. *)
Context {UserAssignedIdentityDetails : Type}.
Variable emptyDetails : UserAssignedIdentityDetails.
Variable marshalDetails : UserAssignedIdentityDetails -> json.

(** [normalizeType] is a function of the package declared in another
    file. *)
Variable normalizeType : string -> string.

(** The identifier parser of package [commonids]:
    [ParseUserAssignedIdentityIDInsensitively] returns a parsed
    identifier or an error, and [ID] renders a parsed identifier. *)
Context {UserAssignedIdentityId : Type}.
Variable ParseUserAssignedIdentityIDInsensitively :
  string -> go_result UserAssignedIdentityId.
Variable ID : UserAssignedIdentityId -> string.

(** The struct of lines 16-21.  [Type_] is the field [Type]; a nil map
    and an empty map are both the empty [gmap]: the code only takes the
    length of [IdentityIds] and ranges over it, which does not tell
    them apart. *)
Record SystemOrSingleUserAssignedMap : Type := {
  Type_ : string;
  PrincipalId : string;
  TenantId : string;
  IdentityIds : gmap string UserAssignedIdentityDetails
}.

(** Modelled from the spec: the typed model
    [ModelSystemAssignedUserAssigned] is declared in another file of
    the package; section 6 gives its shape, and lines 135-138 and
    184-190 use these four fields. *)
Record ModelSystemAssignedUserAssigned : Type := {
  ModelType : string;
  ModelIdentityIds : list string;
  ModelPrincipalId : string;
  ModelTenantId : string
}.

(** *** MarshalJSON (lines 23-49) *)

Definition marshalIdentityIds
    (ids : gmap string UserAssignedIdentityDetails) : json :=
  JObject (marshalDetails <$> ids).

(** The resolved [identityType] and [userAssignedIdentityIds] of lines
    25-39; the receiver is [None] when it is a nil pointer. *)
Definition resolve (s : option SystemOrSingleUserAssignedMap)
    : string * gmap string UserAssignedIdentityDetails :=
  match s with
  | None => (TypeNone, ∅)
  | Some s =>
      let identityType := TypeNone in
      let identityType :=
        if decide (Type_ s = TypeSystemAssigned) then TypeSystemAssigned
        else identityType in
      let identityType :=
        if decide (Type_ s = TypeUserAssigned) then TypeUserAssigned
        else identityType in
      let userAssignedIdentityIds :=
        if decide (identityType <> TypeNone) then IdentityIds s else ∅ in
      (identityType, userAssignedIdentityIds)
  end.

(** The map [out] of lines 41-47, as [json.Marshal] writes it: an
    object with the keys of [out].  The error of [json.Marshal] is nil
    for a map that holds a string, nil and a map of details. *)
Definition MarshalJSON (s : option SystemOrSingleUserAssignedMap) : json :=
  let '(identityType, userAssignedIdentityIds) := resolve s in
  let out : gmap string json :=
    <["userAssignedIdentities" := JNull]> {["type" := JString identityType]} in
  let out :=
    if decide (0 < size userAssignedIdentityIds)
    then <["userAssignedIdentities" := marshalIdentityIds userAssignedIdentityIds]> out
    else out in
  JObject out.

(** *** The Expand functions *)

Definition errIdentityIdsRequired : string :=
  "`identity_ids` must be specified when `type` is set to "
  ++ strconv_Quote TypeUserAssigned.
Definition errIdentityIdsSingle : string :=
  "`identity_ids` can only contain a single identity ID when `type` is set to "
  ++ strconv_Quote TypeUserAssigned.
Definition errIdentityIdsNotAllowed : string :=
  "`identity_ids` can only be specified when `type` is set to "
  ++ strconv_Quote TypeUserAssigned.

(** Lines 74-93, which lines 144-161 repeat: the three checks and the
    construction of the value. *)
Definition validate (identityType : string)
    (identityIds : gmap string UserAssignedIdentityDetails)
    : outcome SystemOrSingleUserAssignedMap :=
  let rest :=
    if decide (0 < size identityIds /\ identityType = TypeSystemAssigned)
    then Failed errIdentityIdsNotAllowed
    else Returned {| Type_ := identityType; PrincipalId := ""; TenantId := "";
                     IdentityIds := identityIds |} in
  if decide (identityType = TypeUserAssigned) then
    if decide (size identityIds = 0) then Failed errIdentityIdsRequired
    else if decide (1 < size identityIds) then Failed errIdentityIdsSingle
    else rest
  else rest.

(** The loop of lines 67-71; [None] when an assertion [v.(string)]
    panics. *)
Fixpoint collectRaw (identityIdsRaw : list iface)
    (identityIds : gmap string UserAssignedIdentityDetails)
    : option (gmap string UserAssignedIdentityDetails) :=
  match identityIdsRaw with
  | [] => Some identityIds
  | IString v :: rest => collectRaw rest (<[v := emptyDetails]> identityIds)
  | _ :: _ => None
  end.

(** The kind of lines 59-64. *)
Definition kindOf (typeRaw : string) : string :=
  let identityType := TypeNone in
  let identityType :=
    if decide (typeRaw = TypeSystemAssigned) then TypeSystemAssigned
    else identityType in
  if decide (typeRaw = TypeUserAssigned) then TypeUserAssigned
  else identityType.

(** Lines 52-94. *)
Definition ExpandSystemOrSingleUserAssignedMap (input : list iface)
    : outcome SystemOrSingleUserAssignedMap :=
  match input with
  | [] => validate TypeNone ∅
  | IMap raw :: _ =>
      match raw !! "type" with
      | Some (IString typeRaw) =>
          let identityType := kindOf typeRaw in
          match raw !! "identity_ids" with
          | Some (ISet identityIdsRaw) =>
              match collectRaw identityIdsRaw ∅ with
              | Some identityIds => validate identityType identityIds
              | None => Panicked
              end
          | _ => Panicked
          end
      | _ => Panicked
      end
  | _ :: _ => Panicked
  end.

(** The loop of lines 138-142. *)
Fixpoint collectIds (ids : list string)
    (identityIds : gmap string UserAssignedIdentityDetails)
    : gmap string UserAssignedIdentityDetails :=
  match ids with
  | [] => identityIds
  | v :: rest => collectIds rest (<[v := emptyDetails]> identityIds)
  end.

(** Lines 127-162.  For an empty input line 131 returns a nil map,
    which the model does not tell from the empty map that the other
    paths build: no property below equates the result of that path
    with the result of another. *)
Definition ExpandSystemOrSingleUserAssignedMapFromModel
    (input : list ModelSystemAssignedUserAssigned)
    : outcome SystemOrSingleUserAssignedMap :=
  match input with
  | [] => Returned {| Type_ := TypeNone; PrincipalId := ""; TenantId := "";
                      IdentityIds := ∅ |}
  | identity :: _ =>
      validate (ModelType identity) (collectIds (ModelIdentityIds identity) ∅)
  end.

(** *** The Flatten functions *)

(** A Flatten call leaves three things behind: the struct its argument
    points to ([None] for a nil pointer), the strings it handed to the
    parser, in order, and what it returned. *)
Record run (A : Type) : Type := {
  input_after : option SystemOrSingleUserAssignedMap;
  parse_calls : list string;
  returned : go_result A
}.
Arguments input_after {A} r.
Arguments parse_calls {A} r.
Arguments returned {A} r.

(** Go ranges over a map in an order it does not specify: the Flatten
    functions take the order of the keys as an argument, which is any
    arrangement of the keys of the map. *)
Definition rangeOrder (m : gmap string UserAssignedIdentityDetails)
    (order : list string) : Prop :=
  order ≡ₚ (map_to_list m).*1.

Definition errParsing (raw err : string) : string :=
  "parsing " ++ strconv_Quote raw ++ " as a User Assigned Identity ID: " ++ err.

(** The loop of lines 108-114, which lines 176-182 repeat, over the
    keys in range order; [calls] collects the parser's arguments. *)
Fixpoint renderIds (keys : list string) (identityIds : list string)
    (calls : list string) : list string * go_result (list string) :=
  match keys with
  | [] => (calls, Ok identityIds)
  | raw :: rest =>
      match ParseUserAssignedIdentityIDInsensitively raw with
      | Err err => ((calls ++ [raw])%list, Err (errParsing raw err))
      | Ok id => renderIds rest (identityIds ++ [ID id])%list (calls ++ [raw])%list
      end
  end.

(** [out] is the rendering of the identifier that [raw] parses to. *)
Definition rendered (raw out : string) : Prop :=
  exists id : UserAssignedIdentityId,
    ParseUserAssignedIdentityIDInsensitively raw = Ok id /\ out = ID id.

(** The assignment [input.Type = normalizeType(input.Type)]. *)
Definition setType (input : SystemOrSingleUserAssignedMap) (t : string)
    : SystemOrSingleUserAssignedMap :=
  {| Type_ := t; PrincipalId := PrincipalId input;
     TenantId := TenantId input; IdentityIds := IdentityIds input |}.

(** Lines 97-124. *)
Definition FlattenSystemOrSingleUserAssignedMap (order : list string)
    (input : option SystemOrSingleUserAssignedMap) : run (list iface) :=
  match input with
  | None => {| input_after := None; parse_calls := []; returned := Ok [] |}
  | Some input =>
      let input := setType input (normalizeType (Type_ input)) in
      if decide (Type_ input <> TypeSystemAssigned
                 /\ Type_ input <> TypeUserAssigned) then
        {| input_after := Some input; parse_calls := []; returned := Ok [] |}
      else
        let '(calls, ids) := renderIds order [] [] in
        {| input_after := Some input;
           parse_calls := calls;
           returned :=
             match ids with
             | Err msg => Err msg
             | Ok identityIds =>
                 Ok [IMap (<["type" := IString (Type_ input)]>
                          (<["identity_ids" := IStrings identityIds]>
                          (<["principal_id" := IString (PrincipalId input)]>
                          (<["tenant_id" := IString (TenantId input)]> ∅))))]
             end |}
  end.

(** Lines 165-192. *)
Definition FlattenSystemOrSingleUserAssignedMapToModel (order : list string)
    (input : option SystemOrSingleUserAssignedMap)
    : run (list ModelSystemAssignedUserAssigned) :=
  match input with
  | None => {| input_after := None; parse_calls := []; returned := Ok [] |}
  | Some input =>
      let input := setType input (normalizeType (Type_ input)) in
      if decide (Type_ input <> TypeSystemAssigned
                 /\ Type_ input <> TypeUserAssigned) then
        {| input_after := Some input; parse_calls := []; returned := Ok [] |}
      else
        let '(calls, ids) := renderIds order [] [] in
        {| input_after := Some input;
           parse_calls := calls;
           returned :=
             match ids with
             | Err msg => Err msg
             | Ok identityIds =>
                 Ok [{| ModelType := Type_ input;
                        ModelIdentityIds := identityIds;
                        ModelPrincipalId := PrincipalId input;
                        ModelTenantId := TenantId input |}]
             end |}
  end.

End Converter.

Arguments input_after {UserAssignedIdentityDetails A} r.
Arguments parse_calls {UserAssignedIdentityDetails A} r.
Arguments returned {UserAssignedIdentityDetails A} r.

(** ** The checks as the specification lists them

    Section 4.1 gives three checks, applied in order; [checkSpec] is
    that list, with the messages as [fmt.Errorf] renders them. *)
Definition checkSpec (kind : string) (n : nat) : option string :=
  if decide (kind = TypeUserAssigned /\ n = 0) then
    Some errIdentityIdsRequired
  else if decide (kind = TypeUserAssigned /\ 1 < n) then
    Some errIdentityIdsSingle
  else if decide (0 < n /\ kind = TypeSystemAssigned) then
    Some errIdentityIdsNotAllowed
  else None.

(** What an input of the untyped Expand supplies when every type
    assertion of lines 57-68 holds: the kind its [type] string maps to
    and the list of its [identity_ids]. *)
Definition untypedInput (input : list iface) (kind : string)
    (ids : list string) : Prop :=
  (input = [] /\ kind = TypeNone /\ ids = [])
  \/ exists (raw : gmap string iface) (rest : list iface) (typeRaw : string),
       input = IMap raw :: rest
       /\ raw !! "type" = Some (IString typeRaw)
       /\ raw !! "identity_ids" = Some (ISet (IString <$> ids))
       /\ kind = kindOf typeRaw.

(** What an input of the typed Expand supplies. *)
Definition typedInput (input : list ModelSystemAssignedUserAssigned)
    (kind : string) (ids : list string) : Prop :=
  (input = [] /\ kind = TypeNone /\ ids = [])
  \/ exists (identity : ModelSystemAssignedUserAssigned)
            (rest : list ModelSystemAssignedUserAssigned),
       input = identity :: rest
       /\ kind = ModelType identity
       /\ ids = ModelIdentityIds identity.

(** The number of distinct strings of a list. *)
Definition distinct (ids : list string) : nat :=
  size (list_to_set ids : gset string).

(** The [type] that MarshalJSON resolves for its receiver, and the
    IdentityIds of the receiver (none for a nil receiver). *)
Definition resolvedType {UserAssignedIdentityDetails : Type}
    (s : option (@SystemOrSingleUserAssignedMap UserAssignedIdentityDetails))
    : string :=
  (resolve s).1.

Definition receiverIds {UserAssignedIdentityDetails : Type}
    (s : option (@SystemOrSingleUserAssignedMap UserAssignedIdentityDetails))
    : gmap string UserAssignedIdentityDetails :=
  match s with
  | None => ∅
  | Some s => IdentityIds s
  end.

(** The error cases of an Expand call with result [r], for the kind
    [kind] and [n] built identity IDs: each case and its message, no
    error outside the three cases, and agreement with the ordered list
    [checkSpec]. *)
Definition errorCases {A : Type} (r : outcome A) (kind : string) (n : nat)
    : Prop :=
  (kind = TypeUserAssigned /\ n = 0 -> r = Failed errIdentityIdsRequired)
  /\ (kind = TypeUserAssigned /\ 1 < n -> r = Failed errIdentityIdsSingle)
  /\ (0 < n /\ kind = TypeSystemAssigned -> r = Failed errIdentityIdsNotAllowed)
  /\ ((exists msg, r = Failed msg) ->
      (kind = TypeUserAssigned /\ n = 0)
      \/ (kind = TypeUserAssigned /\ 1 < n)
      \/ (0 < n /\ kind = TypeSystemAssigned))
  /\ (forall msg, r = Failed msg <-> checkSpec kind n = Some msg).

(** ** Sample collaborators

    Concrete stand-ins for the parameters of the converter, on which
    the functions can be run. *)

(** Details without fields, written as the empty object. *)
Definition sampleMarshal (d : unit) : json := JObject ∅.

(** Modelled from the spec: [normalizeType], declared in another file
    of the package.  Section 9 has it keep [SystemAssigned] and
    [UserAssigned] and treat anything else as neither of the two. *)
Definition normalizeType_spec (t : string) : string :=
  if decide (t = TypeSystemAssigned) then TypeSystemAssigned
  else if decide (t = TypeUserAssigned) then TypeUserAssigned
  else TypeNone.

Definition toLower (c : ascii) : ascii :=
  let n := nat_of_ascii c in
  if decide (65 <= n <= 90) then ascii_of_nat (n + 32) else c.

Fixpoint lowerString (s : string) : string :=
  match s with
  | EmptyString => ""
  | String c rest => String (toLower c) (lowerString rest)
  end.

(** A parser that takes the strings starting with a slash, whatever
    the case of their letters, and keeps them in lower case, which is
    then their rendering.  Its error text names the string it was
    given, as the errors of the parser of [commonids] do. *)
Definition sampleParse (raw : string) : go_result string :=
  match raw with
  | String "/" _ => Ok (lowerString raw)
  | _ => Err ("not a resource ID: " ++ raw)
  end.

Definition sampleID (id : string) : string := id.

(** ** Vocabulary of the further properties *)

(** The element of the untyped Flatten (lines 117-122) that holds the
    four values of an element of the typed Flatten (lines 185-190). *)
Definition modelToIface (m : ModelSystemAssignedUserAssigned) : iface :=
  IMap (<["type" := IString (ModelType m)]>
       (<["identity_ids" := IStrings (ModelIdentityIds m)]>
       (<["principal_id" := IString (ModelPrincipalId m)]>
       (<["tenant_id" := IString (ModelTenantId m)]> ∅)))).

(** A call that returned an error. *)
Definition isErr {A : Type} (r : go_result A) : Prop :=
  exists msg : string, r = Err msg.

(** One of the three literals of the identity kinds. *)
Definition kindLiteral (t : string) : Prop :=
  t = TypeNone \/ t = TypeSystemAssigned \/ t = TypeUserAssigned.

(** What the loop of lines 108-114 appends for a key: the rendering of
    the identifier the key parses to (the key itself stands in when it
    does not parse, where the loop appends nothing). *)
Definition renderOf {UserAssignedIdentityId : Type}
    (Parse : string -> go_result UserAssignedIdentityId)
    (ID : UserAssignedIdentityId -> string) (raw : string) : string :=
  match Parse raw with
  | Ok id => ID id
  | Err _ => raw
  end.

(** * Properties *)

Lemma kinds_distinct :
  TypeUserAssigned <> TypeSystemAssigned
  /\ TypeNone <> TypeSystemAssigned /\ TypeNone <> TypeUserAssigned.
Proof. repeat split; discriminate. Qed.

Lemma checkSpec_None (kind : string) (n : nat) :
  checkSpec kind n = None ->
  (kind = TypeUserAssigned -> n = 1) /\ (kind = TypeSystemAssigned -> n = 0).
Proof.
  unfold checkSpec. intros H.
  destruct (decide (kind = TypeUserAssigned /\ n = 0)) as [|n0]; [discriminate|].
  destruct (decide (kind = TypeUserAssigned /\ 1 < n)) as [|n1]; [discriminate|].
  destruct (decide (0 < n /\ kind = TypeSystemAssigned)) as [|n2]; [discriminate|].
  split; intros Hk.
  - destruct n as [|[|n]].
    + exfalso. apply n0. split; [assumption|reflexivity].
    + reflexivity.
    + exfalso. apply n1. split; [assumption|lia].
  - destruct n as [|n]; [reflexivity|]. exfalso. apply n2. split; [lia|assumption].
Qed.

(** ** Strings and the [%q] verb *)













(** ** The Expand functions *)

Section ExpandProperties.

Context {UserAssignedIdentityDetails : Type}.
Variable emptyDetails : UserAssignedIdentityDetails.

Abbreviation Identity := (@SystemOrSingleUserAssignedMap UserAssignedIdentityDetails).
Abbreviation Expand := (ExpandSystemOrSingleUserAssignedMap emptyDetails).
Abbreviation ExpandFromModel :=
  (ExpandSystemOrSingleUserAssignedMapFromModel emptyDetails).

(** *** The checks *)

Lemma validate_checkSpec (identityType : string)
    (identityIds : gmap string UserAssignedIdentityDetails) :
  validate identityType identityIds =
  match checkSpec identityType (size identityIds) with
  | Some msg => Failed msg
  | None => Returned {| Type_ := identityType; PrincipalId := "";
                        TenantId := ""; IdentityIds := identityIds |}
  end.
Proof.
  unfold validate, checkSpec.
  destruct (decide (identityType = TypeUserAssigned)) as [Hua|Hua].
  - destruct (decide (size identityIds = 0)) as [Hz|Hz].
    + rewrite decide_True by (split; assumption). reflexivity.
    + rewrite (decide_False (P := _ /\ _ = 0)) by (intros [_ ?]; contradiction).
      destruct (decide (1 < size identityIds)) as [Hm|Hm].
      * rewrite decide_True by (split; assumption). reflexivity.
      * rewrite (decide_False (P := _ /\ 1 < _)) by (intros [_ ?]; contradiction).
        destruct (decide (0 < _ /\ _)); reflexivity.
  - rewrite (decide_False (P := _ /\ _ = 0)) by (intros [? _]; contradiction).
    rewrite (decide_False (P := _ /\ 1 < _)) by (intros [? _]; contradiction).
    destruct (decide (0 < _ /\ _)); reflexivity.
Qed.

Lemma validate_Returned (identityType : string)
    (identityIds : gmap string UserAssignedIdentityDetails) (v : Identity) :
  validate identityType identityIds = Returned v ->
  v = {| Type_ := identityType; PrincipalId := ""; TenantId := "";
         IdentityIds := identityIds |}
  /\ (identityType = TypeUserAssigned -> size identityIds = 1)
  /\ (identityType = TypeSystemAssigned -> size identityIds = 0).
Proof.
  rewrite validate_checkSpec.
  destruct (checkSpec identityType (size identityIds)) eqn:E; [discriminate|].
  intros H. inversion H. split; [reflexivity|]. apply checkSpec_None, E.
Qed.

(** *** The built set of identity IDs *)

Lemma collectIds_dom (ids : list string)
    (acc : gmap string UserAssignedIdentityDetails) :
  dom (collectIds emptyDetails ids acc) = list_to_set ids ∪ dom acc.
Proof.
  revert acc. induction ids as [|v rest IH]; intros acc; simpl.
  - set_solver.
  - rewrite IH, dom_insert_L. set_solver.
Qed.

Lemma collectIds_size (ids : list string) :
  size (collectIds emptyDetails ids ∅) = size (list_to_set ids : gset string).
Proof.
  rewrite <- size_dom, collectIds_dom, dom_empty_L. f_equal. set_solver.
Qed.

Lemma collectRaw_strings (ids : list string)
    (acc : gmap string UserAssignedIdentityDetails) :
  collectRaw emptyDetails (IString <$> ids) acc
  = Some (collectIds emptyDetails ids acc).
Proof.
  revert acc. induction ids as [|v rest IH]; intros acc; simpl; [reflexivity|].
  apply IH.
Qed.

Lemma collectRaw_Some (l : list iface)
    (acc built : gmap string UserAssignedIdentityDetails) :
  collectRaw emptyDetails l acc = Some built ->
  exists ids : list string,
    l = IString <$> ids /\ built = collectIds emptyDetails ids acc.
Proof.
  revert acc. induction l as [|x rest IH]; intros acc H; simpl in H.
  - exists []. inversion H. split; reflexivity.
  - destruct x; try discriminate.
    destruct (IH _ H) as (ids & -> & ->). exists (s :: ids). split; reflexivity.
Qed.

Lemma collectRaw_not_string (pre : list string) (x : iface) (post : list iface)
    (acc : gmap string UserAssignedIdentityDetails) :
  (forall s, x <> IString s) ->
  collectRaw emptyDetails ((IString <$> pre) ++ x :: post)%list acc = None.
Proof.
  intros Hx. revert acc. induction pre as [|v rest IH]; intros acc; simpl.
  - destruct x; try reflexivity. exfalso. eapply Hx. reflexivity.
  - apply IH.
Qed.


Lemma Expand_built (input : list iface) (kind : string) (ids : list string) :
  untypedInput input kind ids ->
  Expand input = validate kind (collectIds emptyDetails ids ∅).
Proof.
  intros [(-> & -> & ->) | (raw & rest & typeRaw & -> & Ht & Hi & ->)].
  - reflexivity.
  - simpl. rewrite Ht, Hi, collectRaw_strings. reflexivity.
Qed.

Lemma Expand_not_Panicked (input : list iface) :
  Expand input <> Panicked ->
  exists (kind : string) (ids : list string), untypedInput input kind ids.
Proof.
  intros H. destruct input as [|x rest].
  - exists TypeNone, []. left. repeat split.
  - simpl in H. destruct x as [| | |raw| | |]; try congruence.
    destruct (raw !! "type") as [[|typeRaw| | | | |]|] eqn:Ht; try congruence.
    destruct (raw !! "identity_ids") as [[| | | |l| |]|] eqn:Hi; try congruence.
    destruct (collectRaw emptyDetails l ∅) as [built|] eqn:Hc; try congruence.
    destruct (collectRaw_Some _ _ _ Hc) as (ids & -> & _).
    exists (kindOf typeRaw), ids. right. exists raw, rest, typeRaw. repeat split; assumption.
Qed.

Lemma ExpandFromModel_built (input : list ModelSystemAssignedUserAssigned)
    (kind : string) (ids : list string) :
  typedInput input kind ids ->
  ExpandFromModel input = validate kind (collectIds emptyDetails ids ∅).
Proof.
  intros [(-> & -> & ->) | (identity & rest & -> & -> & ->)]; reflexivity.
Qed.

Lemma typedInput_total (input : list ModelSystemAssignedUserAssigned) :
  exists (kind : string) (ids : list string), typedInput input kind ids.
Proof.
  destruct input as [|identity rest].
  - exists TypeNone, []. left. repeat split.
  - exists (ModelType identity), (ModelIdentityIds identity). right. eauto.
Qed.

(** C1 (as amended): a value that an Expand function returns has
    exactly one identity ID when its Type is UserAssigned and none when
    its Type is SystemAssigned. *)
Theorem expand_invariant (v : Identity) :
  (exists input, Expand input = Returned v)
  \/ (exists input, ExpandFromModel input = Returned v) ->
  (Type_ v = TypeUserAssigned -> size (IdentityIds v) = 1)
  /\ (Type_ v = TypeSystemAssigned -> size (IdentityIds v) = 0).
Proof.
  intros [[input H] | [input H]].
  - assert (Hnp : Expand input <> Panicked) by (rewrite H; discriminate).
    destruct (Expand_not_Panicked _ Hnp) as (kind & ids & Hb).
    rewrite (Expand_built _ _ _ Hb) in H.
    apply validate_Returned in H as (-> & Hua & Hsa). simpl. tauto.
  - destruct (typedInput_total input) as (kind & ids & Hb).
    rewrite (ExpandFromModel_built _ _ _ Hb) in H.
    apply validate_Returned in H as (-> & Hua & Hsa). simpl. tauto.
Qed.

Lemma checkSpec_errorCases {A : Type} (r : outcome A) (kind : string)
    (n : nat) :
  (forall msg, r = Failed msg <-> checkSpec kind n = Some msg) ->
  errorCases r kind n.
Proof.
  intros H. destruct kinds_distinct as (Hd & _ & _).
  assert (Hex : (exists msg, r = Failed msg) -> exists msg, checkSpec kind n = Some msg).
  { intros [msg Hm]. exists msg. apply H, Hm. }
  unfold errorCases. revert H Hex. unfold checkSpec.
  destruct (decide (kind = TypeUserAssigned /\ n = 0)) as [c1|c1].
  { intros H Hex. split; [intros _; apply H; reflexivity|].
    split; [intros [_ ?]; exfalso; lia|].
    split; [intros [? _]; exfalso; lia|].
    split; [intros _; left; exact c1|exact H]. }
  destruct (decide (kind = TypeUserAssigned /\ 1 < n)) as [c2|c2].
  { intros H Hex. split; [intros ?; contradiction|].
    split; [intros _; apply H; reflexivity|].
    split; [intros [_ Hsa]; destruct c2 as [Hua _]; congruence|].
    split; [intros _; right; left; exact c2|exact H]. }
  destruct (decide (0 < n /\ kind = TypeSystemAssigned)) as [c3|c3].
  { intros H Hex. split; [intros ?; contradiction|].
    split; [intros ?; contradiction|].
    split; [intros _; apply H; reflexivity|].
    split; [intros _; right; right; exact c3|exact H]. }
  intros H Hex. split; [intros ?; contradiction|].
  split; [intros ?; contradiction|].
  split; [intros ?; contradiction|].
  split; [|exact H].
  intros Hm. destruct (Hex Hm) as [msg Hmsg]. discriminate.
Qed.

Lemma validate_errorCases (kind : string)
    (identityIds : gmap string UserAssignedIdentityDetails) :
  errorCases (validate kind identityIds) kind (size identityIds).
Proof.
  apply checkSpec_errorCases. intros msg. rewrite validate_checkSpec.
  destruct (checkSpec kind (size identityIds)); split; congruence.
Qed.

(** C3 (as amended): an Expand call that does not panic returns an
    error exactly in three cases, checked in this order: the kind is
    UserAssigned and no identity ID was built; the kind is UserAssigned
    and more than one was built; at least one was built and the kind is
    SystemAssigned.  The messages end in the literal UserAssigned
    between double quotes, as the verb [%q] writes it. *)
Theorem expand_error_cases :
  (forall input : list iface,
     Expand input <> Panicked ->
     exists (kind : string) (ids : list string),
       untypedInput input kind ids
       /\ errorCases (Expand input) kind (distinct ids))
  /\ (forall input : list ModelSystemAssignedUserAssigned,
       ExpandFromModel input <> Panicked
       /\ exists (kind : string) (ids : list string),
            typedInput input kind ids
            /\ errorCases (ExpandFromModel input) kind (distinct ids)).
Proof.
  split.
  - intros input Hnp.
    destruct (Expand_not_Panicked _ Hnp) as (kind & ids & Hb).
    exists kind, ids. split; [exact Hb|].
    rewrite (Expand_built _ _ _ Hb). unfold distinct.
    rewrite <- collectIds_size. apply validate_errorCases.
  - intros input.
    destruct (typedInput_total input) as (kind & ids & Hb).
    rewrite (ExpandFromModel_built _ _ _ Hb). split.
    + rewrite validate_checkSpec. destruct (checkSpec _ _); discriminate.
    + exists kind, ids. split; [exact Hb|]. unfold distinct.
      rewrite <- collectIds_size. apply validate_errorCases.
Qed.

(** C4 (as amended): when the type is UserAssigned, an Expand call
    fails with the first message if no identity ID is supplied and with
    the second if more than one distinct identity ID is supplied; the
    IDs are counted after equal strings are merged, and a call with
    exactly one distinct ID succeeds, however often it is repeated. *)
Theorem expand_user_assigned_count (ids : list string) :
  (forall input : list iface,
     untypedInput input TypeUserAssigned ids ->
     (distinct ids = 0 -> Expand input = Failed errIdentityIdsRequired)
     /\ (1 < distinct ids -> Expand input = Failed errIdentityIdsSingle)
     /\ (distinct ids = 1 -> exists v, Expand input = Returned v))
  /\ (forall input : list ModelSystemAssignedUserAssigned,
       typedInput input TypeUserAssigned ids ->
       (distinct ids = 0 -> ExpandFromModel input = Failed errIdentityIdsRequired)
       /\ (1 < distinct ids -> ExpandFromModel input = Failed errIdentityIdsSingle)
       /\ (distinct ids = 1 -> exists v, ExpandFromModel input = Returned v)).
Proof.
  assert (Hv : forall r : outcome Identity,
    errorCases r TypeUserAssigned (distinct ids) ->
    (r = validate TypeUserAssigned (collectIds emptyDetails ids ∅)) ->
    (distinct ids = 0 -> r = Failed errIdentityIdsRequired)
    /\ (1 < distinct ids -> r = Failed errIdentityIdsSingle)
    /\ (distinct ids = 1 -> exists v, r = Returned v)).
  { intros r (H1 & H2 & _ & _ & H5) Hr. repeat split.
    - intros Hz. apply H1. split; [reflexivity|assumption].
    - intros Hm. apply H2. split; [reflexivity|assumption].
    - intros Ho. subst r. rewrite validate_checkSpec.
      rewrite collectIds_size. fold (distinct ids). rewrite Ho.
      eexists. reflexivity. }
  split; intros input Hb.
  - apply Hv; [|apply Expand_built, Hb].
    rewrite (Expand_built _ _ _ Hb). unfold distinct.
    rewrite <- collectIds_size. apply validate_errorCases.
  - apply Hv; [|apply ExpandFromModel_built, Hb].
    rewrite (ExpandFromModel_built _ _ _ Hb). unfold distinct.
    rewrite <- collectIds_size. apply validate_errorCases.
Qed.

(** C9: the untyped Expand panics on a non-empty input whose first
    element is not a string-keyed map, whose [type] entry is missing or
    not a string, whose [identity_ids] entry is missing or not a
    non-nil schema set, or whose set holds an element that is not a
    string; it returns no error value there. *)
Theorem expand_untyped_panics (rest : list iface) :
  (forall x : iface,
     (forall raw, x <> IMap raw) -> Expand (x :: rest) = Panicked)
  /\ (forall raw : gmap string iface,
       (forall s, raw !! "type" <> Some (IString s)) ->
       Expand (IMap raw :: rest) = Panicked)
  /\ (forall (raw : gmap string iface) (typeRaw : string),
       raw !! "type" = Some (IString typeRaw) ->
       (forall l, raw !! "identity_ids" <> Some (ISet l)) ->
       Expand (IMap raw :: rest) = Panicked)
  /\ (forall (raw : gmap string iface) (typeRaw : string)
             (pre : list string) (x : iface) (post : list iface),
       raw !! "type" = Some (IString typeRaw) ->
       raw !! "identity_ids" = Some (ISet ((IString <$> pre) ++ x :: post)%list) ->
       (forall s, x <> IString s) ->
       Expand (IMap raw :: rest) = Panicked).
Proof.
  repeat split.
  - intros x Hx. destruct x; try reflexivity. exfalso. eapply Hx. reflexivity.
  - intros raw Ht. simpl.
    destruct (raw !! "type") as [[| s | | | | |]|] eqn:E; try reflexivity.
    exfalso. eapply Ht. reflexivity.
  - intros raw typeRaw Ht Hi. simpl. rewrite Ht.
    destruct (raw !! "identity_ids") as [[| | | | l | |]|] eqn:E; try reflexivity.
    exfalso. eapply Hi. reflexivity.
  - intros raw typeRaw pre x post Ht Hi Hx. simpl. rewrite Ht, Hi.
    rewrite collectRaw_not_string by exact Hx. reflexivity.
Qed.

End ExpandProperties.

(** ** MarshalJSON *)

Section MarshalProperties.

Context {UserAssignedIdentityDetails : Type}.
Variable marshalDetails : UserAssignedIdentityDetails -> json.

Abbreviation Marshal := (MarshalJSON marshalDetails).

Lemma resolve_spec
    (s : option (@SystemOrSingleUserAssignedMap UserAssignedIdentityDetails)) :
  resolve s
  = (resolvedType s,
     if decide (resolvedType s = TypeNone) then ∅ else receiverIds s).
Proof.
  destruct s as [s|]; [|reflexivity].
  unfold resolvedType, resolve. simpl.
  destruct (decide (Type_ s = TypeUserAssigned)) as [Hua|Hua].
  - reflexivity.
  - destruct (decide (Type_ s = TypeSystemAssigned)); reflexivity.
Qed.

Lemma resolvedType_cases
    (s : option (@SystemOrSingleUserAssignedMap UserAssignedIdentityDetails)) :
  resolvedType s = TypeNone
  \/ resolvedType s = TypeSystemAssigned
  \/ resolvedType s = TypeUserAssigned.
Proof.
  destruct s as [s|]; [|left; reflexivity].
  unfold resolvedType, resolve. simpl.
  destruct (decide (Type_ s = TypeUserAssigned)); [right; right; reflexivity|].
  destruct (decide (Type_ s = TypeSystemAssigned)); [right; left|left]; reflexivity.
Qed.

Lemma Marshal_fields
    (s : option (@SystemOrSingleUserAssignedMap UserAssignedIdentityDetails)) :
  Marshal s
  = JObject
      (<["userAssignedIdentities" :=
           if decide (resolvedType s = TypeNone \/ receiverIds s = ∅)
           then JNull
           else JObject (marshalDetails <$> receiverIds s)]>
         {["type" := JString (resolvedType s)]}).
Proof.
  unfold MarshalJSON. rewrite resolve_spec.
  destruct (decide (resolvedType s = TypeNone)) as [Hn|Hn].
  - rewrite decide_False by (rewrite map_size_empty; lia).
    rewrite decide_True by (left; exact Hn). reflexivity.
  - destruct (decide (receiverIds s = ∅)) as [He|He].
    + rewrite He, decide_False by (rewrite map_size_empty; lia).
      rewrite decide_True by (right; reflexivity). reflexivity.
    + rewrite decide_True
        by (apply Nat.neq_0_lt_0; intros Hz; apply He, map_size_empty_iff, Hz).
      rewrite decide_False by (intros [?|?]; contradiction).
      rewrite insert_insert_eq. reflexivity.
Qed.

(** C2 (as amended): MarshalJSON writes [userAssignedIdentities] as
    null exactly when the resolved type is None or IdentityIds is
    empty.  Otherwise the key holds a mapping whose keys are the
    identity IDs of IdentityIds, each with the document of its details,
    which is the empty object when the details carry no fields. *)
Theorem marshal_userAssignedIdentities
    (s : option (@SystemOrSingleUserAssignedMap UserAssignedIdentityDetails)) :
  exists fields : gmap string json,
    Marshal s = JObject fields
    /\ (fields !! "userAssignedIdentities" = Some JNull
        <-> resolvedType s = TypeNone \/ receiverIds s = ∅)
    /\ (resolvedType s <> TypeNone -> receiverIds s <> ∅ ->
        fields !! "userAssignedIdentities"
        = Some (JObject (marshalDetails <$> receiverIds s))
        /\ ((forall id d, receiverIds s !! id = Some d ->
                          marshalDetails d = JObject ∅) ->
            fields !! "userAssignedIdentities"
            = Some (JObject ((fun _ => JObject ∅) <$> receiverIds s)))).
Proof.
  eexists. split; [apply Marshal_fields|]. rewrite lookup_insert_eq. split.
  - destruct (decide (resolvedType s = TypeNone \/ receiverIds s = ∅)) as [c|c].
    + split; [intros _; exact c|reflexivity].
    + split; [discriminate|intros ?; contradiction].
  - intros Hn He.
    rewrite decide_False by (intros [?|?]; contradiction).
    split; [reflexivity|]. intros Hd. do 2 f_equal.
    apply map_eq. intros id. rewrite !lookup_fmap.
    destruct (receiverIds s !! id) as [d|] eqn:E; [|reflexivity].
    simpl. f_equal. eapply Hd, E.
Qed.

(** C8: the object MarshalJSON writes has exactly the two top-level
    keys [type] and [userAssignedIdentities], and does not depend on
    the PrincipalId and TenantId of the receiver. *)
Theorem marshal_top_level_keys
    (s : option (@SystemOrSingleUserAssignedMap UserAssignedIdentityDetails)) :
  (exists fields : gmap string json,
     Marshal s = JObject fields
     /\ dom fields = {["type"; "userAssignedIdentities"]})
  /\ (forall (s0 : SystemOrSingleUserAssignedMap) (principalId tenantId : string),
       Marshal (Some {| Type_ := Type_ s0; PrincipalId := principalId;
                        TenantId := tenantId; IdentityIds := IdentityIds s0 |})
       = Marshal (Some s0)).
Proof.
  split.
  - eexists. split; [apply Marshal_fields|].
    rewrite dom_insert_L, dom_singleton_L. set_solver.
  - intros s0 principalId tenantId. reflexivity.
Qed.

End MarshalProperties.

(** ** The Flatten functions *)

Section FlattenProperties.

Context {UserAssignedIdentityDetails : Type}.
Variable normalizeType : string -> string.
Context {UserAssignedIdentityId : Type}.
Variable ParseUserAssignedIdentityIDInsensitively :
  string -> go_result UserAssignedIdentityId.
Variable ID : UserAssignedIdentityId -> string.

Abbreviation Parse := ParseUserAssignedIdentityIDInsensitively.
Abbreviation Flatten :=
  (@FlattenSystemOrSingleUserAssignedMap UserAssignedIdentityDetails
     normalizeType _ Parse ID).
Abbreviation FlattenToModel :=
  (@FlattenSystemOrSingleUserAssignedMapToModel UserAssignedIdentityDetails
     normalizeType _ Parse ID).
Abbreviation render := (renderIds Parse ID).

Lemma rangeOrder_elem (m : gmap string UserAssignedIdentityDetails)
    (order : list string) (raw : string) :
  rangeOrder m order -> (raw ∈ order <-> is_Some (m !! raw)).
Proof.
  unfold rangeOrder. intros ->. rewrite list_elem_of_fmap. split.
  - intros [[k d] [-> Hin]]. apply elem_of_map_to_list in Hin. exists d. exact Hin.
  - intros [d Hd]. exists (raw, d). split; [reflexivity|].
    apply elem_of_map_to_list, Hd.
Qed.

(** The loop when every key parses: all keys go to the parser and the
    renderings are appended in range order. *)
Lemma render_all_parse (keys : list string) :
  (forall raw, raw ∈ keys -> exists id, Parse raw = Ok id) ->
  exists outs : list string,
    Forall2 (rendered Parse ID) keys outs
    /\ forall acc calls,
         render keys acc calls = ((calls ++ keys)%list, Ok (acc ++ outs)%list).
Proof.
  induction keys as [|raw rest IH]; intros Hall.
  - exists []. split; [constructor|]. intros acc calls. simpl.
    rewrite !app_nil_r. reflexivity.
  - destruct (Hall raw) as [id Hid]; [left|].
    destruct IH as (outs & Hf & Hr).
    { intros r Hr. apply Hall. right. exact Hr. }
    exists (ID id :: outs). split.
    + constructor; [exists id; split; [exact Hid|reflexivity] | exact Hf].
    + intros acc calls. simpl. rewrite Hid, Hr, <- !app_assoc. reflexivity.
Qed.

(** The loop when some key does not parse: it stops at the first such
    key in range order, with the error built from that key. *)
Lemma render_some_fails (keys : list string) :
  (exists raw err, raw ∈ keys /\ Parse raw = Err err) ->
  exists (pre : list string) (raw : string) (post : list string) (err : string),
    keys = (pre ++ raw :: post)%list
    /\ (forall k, k ∈ pre -> exists id, Parse k = Ok id)
    /\ Parse raw = Err err
    /\ forall acc calls,
         (render keys acc calls).1 = (calls ++ pre ++ [raw])%list
         /\ (render keys acc calls).2 = Err (errParsing raw err).
Proof.
  induction keys as [|k rest IH]; intros (raw & err & Hin & Hp).
  - inversion Hin.
  - destruct (Parse k) as [id|e] eqn:Hk.
    + assert (Hrest : exists raw err, raw ∈ rest /\ Parse raw = Err err).
      { exists raw, err. split; [|exact Hp].
        apply elem_of_cons in Hin as [->|Hin]; [congruence|exact Hin]. }
      destruct (IH Hrest) as (pre & raw' & post & err' & -> & Hpre & Hp' & Hr).
      exists (k :: pre), raw', post, err'. split; [reflexivity|].
      split.
      { intros k' Hin'. apply elem_of_cons in Hin' as [->|Hin'];
          [exists id; exact Hk|apply Hpre, Hin']. }
      split; [exact Hp'|]. intros acc calls. simpl. rewrite Hk.
      destruct (Hr (acc ++ [ID id])%list (calls ++ [k])%list) as [H1 H2].
      rewrite H1, H2, <- !app_assoc. split; reflexivity.
    + exists [], k, rest, e. split; [reflexivity|].
      split; [intros k' Hin'; inversion Hin'|]. split; [exact Hk|].
      intros acc calls. simpl. rewrite Hk. split; reflexivity.
Qed.

(** C10: a Flatten call on a non-nil input overwrites the Type of the
    struct with the normalized kind and leaves PrincipalId, TenantId
    and IdentityIds as they were, whatever it returns. *)
Theorem flatten_frame (order : list string)
    (s : @SystemOrSingleUserAssignedMap UserAssignedIdentityDetails) :
  (exists s', input_after (Flatten order (Some s)) = Some s'
     /\ Type_ s' = normalizeType (Type_ s)
     /\ PrincipalId s' = PrincipalId s
     /\ TenantId s' = TenantId s
     /\ IdentityIds s' = IdentityIds s)
  /\ (exists s', input_after (FlattenToModel order (Some s)) = Some s'
     /\ Type_ s' = normalizeType (Type_ s)
     /\ PrincipalId s' = PrincipalId s
     /\ TenantId s' = TenantId s
     /\ IdentityIds s' = IdentityIds s).
Proof.
  split; exists (setType s (normalizeType (Type_ s)));
    (split; [|repeat split]);
    unfold FlattenSystemOrSingleUserAssignedMap,
      FlattenSystemOrSingleUserAssignedMapToModel;
    case_decide; [reflexivity | destruct (render order [] []); reflexivity
                 | reflexivity | destruct (render order [] []); reflexivity].
Qed.

(** C7: a Flatten call returns the empty list and no error for a nil
    input, and for an input whose normalized kind is neither
    SystemAssigned nor UserAssigned; in both cases the parser is not
    called. *)
Theorem flatten_empty (order : list string) :
  (returned (Flatten order None) = Ok []
   /\ parse_calls (Flatten order None) = []
   /\ returned (FlattenToModel order None) = Ok []
   /\ parse_calls (FlattenToModel order None) = [])
  /\ (forall s : @SystemOrSingleUserAssignedMap UserAssignedIdentityDetails,
       normalizeType (Type_ s) <> TypeSystemAssigned ->
       normalizeType (Type_ s) <> TypeUserAssigned ->
       returned (Flatten order (Some s)) = Ok []
       /\ parse_calls (Flatten order (Some s)) = []
       /\ returned (FlattenToModel order (Some s)) = Ok []
       /\ parse_calls (FlattenToModel order (Some s)) = []).
Proof.
  split; [repeat split|].
  intros s Hsa Hua.
  unfold FlattenSystemOrSingleUserAssignedMap,
    FlattenSystemOrSingleUserAssignedMapToModel. simpl.
  rewrite !decide_True by (split; assumption). repeat split.
Qed.

Lemma rendered_fun (raw out out' : string) :
  rendered Parse ID raw out -> rendered Parse ID raw out' -> out = out'.
Proof. intros (id & H & ->) (id' & H' & ->). congruence. Qed.

Lemma rendered_elem (keys outs : list string) :
  Forall2 (rendered Parse ID) keys outs ->
  forall out, out ∈ outs <-> exists raw, raw ∈ keys /\ rendered Parse ID raw out.
Proof.
  induction 1 as [|raw y keys outs Hr Hf IH]; intros out.
  - split; [intros Hin; inversion Hin|intros (raw & Hin & _); inversion Hin].
  - rewrite elem_of_cons, IH. split.
    + intros [->|(raw' & Hin & Hr')].
      * exists raw. split; [left|exact Hr].
      * exists raw'. split; [right; exact Hin|exact Hr'].
    + intros (raw' & Hin & Hr'). apply elem_of_cons in Hin as [->|Hin].
      * left. eapply rendered_fun; eassumption.
      * right. exists raw'. split; assumption.
Qed.

Lemma flatten_renders (order : list string)
    (s : @SystemOrSingleUserAssignedMap UserAssignedIdentityDetails)
    (calls : list string) (ids : go_result (list string)) :
  normalizeType (Type_ s) = TypeSystemAssigned
  \/ normalizeType (Type_ s) = TypeUserAssigned ->
  render order [] [] = (calls, ids) ->
  returned (Flatten order (Some s))
  = match ids with
    | Err msg => Err msg
    | Ok identityIds =>
        Ok [IMap (<["type" := IString (normalizeType (Type_ s))]>
                 (<["identity_ids" := IStrings identityIds]>
                 (<["principal_id" := IString (PrincipalId s)]>
                 (<["tenant_id" := IString (TenantId s)]> ∅))))]
    end
  /\ returned (FlattenToModel order (Some s))
    = match ids with
      | Err msg => Err msg
      | Ok identityIds =>
          Ok [{| ModelType := normalizeType (Type_ s);
                 ModelIdentityIds := identityIds;
                 ModelPrincipalId := PrincipalId s;
                 ModelTenantId := TenantId s |}]
      end
  /\ parse_calls (Flatten order (Some s)) = calls
  /\ parse_calls (FlattenToModel order (Some s)) = calls.
Proof.
  intros Hk Hr.
  unfold FlattenSystemOrSingleUserAssignedMap,
    FlattenSystemOrSingleUserAssignedMapToModel. simpl.
  rewrite !decide_False by (intros [? ?]; destruct Hk; contradiction).
  rewrite Hr. simpl. repeat split.
Qed.

Lemma flatten_some_fails (order : list string)
    (s : @SystemOrSingleUserAssignedMap UserAssignedIdentityDetails) :
  rangeOrder (IdentityIds s) order ->
  normalizeType (Type_ s) = TypeSystemAssigned
  \/ normalizeType (Type_ s) = TypeUserAssigned ->
  (exists raw err, is_Some (IdentityIds s !! raw) /\ Parse raw = Err err) ->
  exists (pre : list string) (raw : string) (post : list string) (err : string),
    order = (pre ++ raw :: post)%list
    /\ (forall k, k ∈ pre -> exists id, Parse k = Ok id)
    /\ is_Some (IdentityIds s !! raw) /\ Parse raw = Err err
    /\ returned (Flatten order (Some s)) = Err (errParsing raw err)
    /\ returned (FlattenToModel order (Some s)) = Err (errParsing raw err).
Proof.
  intros Ho Hk (raw & err & Hin & Hp).
  destruct (render_some_fails order) as (pre & raw' & post & err' & Hsplit & Hpre & Hp' & Hr).
  { exists raw, err. split; [|exact Hp]. apply (rangeOrder_elem _ _ _ Ho), Hin. }
  exists pre, raw', post, err'. split; [exact Hsplit|]. split; [exact Hpre|].
  split.
  { apply (rangeOrder_elem _ _ _ Ho). rewrite Hsplit.
    apply elem_of_app. right. left. }
  split; [exact Hp'|].
  destruct (render order [] []) as [calls ids] eqn:E.
  destruct (Hr [] []) as [_ H2]. rewrite E in H2. simpl in H2. subst ids.
  destruct (flatten_renders order s _ _ Hk E) as (H3 & H4 & _).
  split; [exact H3|exact H4].
Qed.

Lemma flatten_all_parse (order : list string)
    (s : @SystemOrSingleUserAssignedMap UserAssignedIdentityDetails) :
  rangeOrder (IdentityIds s) order ->
  normalizeType (Type_ s) = TypeSystemAssigned
  \/ normalizeType (Type_ s) = TypeUserAssigned ->
  (forall raw, is_Some (IdentityIds s !! raw) -> exists id, Parse raw = Ok id) ->
  exists outs : list string,
    Forall2 (rendered Parse ID) order outs
    /\ returned (Flatten order (Some s))
      = Ok [IMap (<["type" := IString (normalizeType (Type_ s))]>
                 (<["identity_ids" := IStrings outs]>
                 (<["principal_id" := IString (PrincipalId s)]>
                 (<["tenant_id" := IString (TenantId s)]> ∅))))]
    /\ returned (FlattenToModel order (Some s))
      = Ok [{| ModelType := normalizeType (Type_ s);
               ModelIdentityIds := outs;
               ModelPrincipalId := PrincipalId s;
               ModelTenantId := TenantId s |}].
Proof.
  intros Ho Hk Hall.
  destruct (render_all_parse order) as (outs & Hf & Hr).
  { intros raw Hin. apply Hall, (rangeOrder_elem _ _ _ Ho), Hin. }
  exists outs. split; [exact Hf|].
  destruct (flatten_renders order s _ _ Hk (Hr [] [])) as (H3 & H4 & _).
  split; [exact H3|exact H4].
Qed.


End FlattenProperties.

(** ** Expand, then Flatten *)

Section RoundTrip.

Context {UserAssignedIdentityDetails : Type}.
Variable emptyDetails : UserAssignedIdentityDetails.
Variable normalizeType : string -> string.
Context {UserAssignedIdentityId : Type}.
Variable ParseUserAssignedIdentityIDInsensitively :
  string -> go_result UserAssignedIdentityId.
Variable ID : UserAssignedIdentityId -> string.

Abbreviation Parse := ParseUserAssignedIdentityIDInsensitively.

Hypothesis normalize_SystemAssigned :
  normalizeType TypeSystemAssigned = TypeSystemAssigned.
Hypothesis normalize_UserAssigned :
  normalizeType TypeUserAssigned = TypeUserAssigned.

Lemma flatten_after_validate (kind : string) (ids order : list string)
    (v : @SystemOrSingleUserAssignedMap UserAssignedIdentityDetails) :
  kind = TypeSystemAssigned \/ kind = TypeUserAssigned ->
  (forall raw, raw ∈ ids -> exists id, Parse raw = Ok id) ->
  validate kind (collectIds emptyDetails ids ∅) = Returned v ->
  rangeOrder (IdentityIds v) order ->
  exists outs : list string,
    returned (FlattenSystemOrSingleUserAssignedMap normalizeType Parse ID
                order (Some v))
    = Ok [IMap (<["type" := IString kind]>
               (<["identity_ids" := IStrings outs]>
               (<["principal_id" := IString ""]>
               (<["tenant_id" := IString ""]> ∅))))]
    /\ returned (FlattenSystemOrSingleUserAssignedMapToModel normalizeType
                   Parse ID order (Some v))
      = Ok [{| ModelType := kind; ModelIdentityIds := outs;
               ModelPrincipalId := ""; ModelTenantId := "" |}]
    /\ (forall out, out ∈ outs <->
                    exists raw, raw ∈ ids /\ rendered Parse ID raw out)
    /\ ((forall raw, raw ∈ ids -> rendered Parse ID raw raw) ->
        forall x, x ∈ outs <-> x ∈ ids).
Proof.
  intros Hk Hwf Hv Ho.
  apply validate_Returned in Hv as (-> & _ & _). simpl in Ho.
  assert (Hn : normalizeType kind = kind) by (destruct Hk; subst; assumption).
  assert (Hmem : forall raw, raw ∈ order <-> raw ∈ ids).
  { intros raw. rewrite (rangeOrder_elem _ _ _ Ho), <- elem_of_dom.
    rewrite collectIds_dom, dom_empty_L. set_solver. }
  pose (s := {| Type_ := kind; PrincipalId := ""; TenantId := "";
                IdentityIds := collectIds emptyDetails ids ∅ |}).
  destruct (flatten_all_parse normalizeType Parse ID order s Ho)
    as (outs & Hf & H1 & H2).
  { simpl. rewrite Hn. exact Hk. }
  { simpl. intros raw Hin. apply Hwf, Hmem, (rangeOrder_elem _ _ _ Ho), Hin. }
  unfold s in H1, H2. cbn [Type_ PrincipalId TenantId] in H1, H2.
  rewrite Hn in H1, H2.
  exists outs. split; [exact H1|]. split; [exact H2|].
  assert (Hout : forall out, out ∈ outs <->
                    exists raw, raw ∈ ids /\ rendered Parse ID raw out).
  { intros out. rewrite (rendered_elem Parse ID _ _ Hf). split.
    - intros (raw & Hin & Hr). exists raw. split; [apply Hmem, Hin|exact Hr].
    - intros (raw & Hin & Hr). exists raw. split; [apply Hmem, Hin|exact Hr]. }
  split; [exact Hout|].
  intros Hcanon x. rewrite Hout. split.
  - intros (raw & Hin & Hr).
    rewrite <- (rendered_fun Parse ID _ _ _ (Hcanon raw Hin) Hr). exact Hin.
  - intros Hin. exists x. split; [exact Hin|apply Hcanon, Hin].
Qed.

Lemma kindOf_kind (kind : string) :
  kind = TypeSystemAssigned \/ kind = TypeUserAssigned -> kindOf kind = kind.
Proof. intros [->| ->]; reflexivity. Qed.

(** C5 (as amended): let x be an input whose [type] is SystemAssigned
    or UserAssigned, whose identity IDs all parse, and which passes the
    checks of Expand, and let kind normalization keep these two
    literals.  Then flattening the expanded value succeeds with one
    element that has the [type] of x and, as identity IDs, the
    renderings of the parsed IDs of x, in some order; these are the IDs
    of x when each of them is its own rendering. *)
Theorem round_trip (kind : string) (ids order : list string) :
  kind = TypeSystemAssigned \/ kind = TypeUserAssigned ->
  (forall raw, raw ∈ ids -> exists id, Parse raw = Ok id) ->
  (forall (raw : gmap string iface) (rest : list iface)
          (v : @SystemOrSingleUserAssignedMap UserAssignedIdentityDetails),
     raw !! "type" = Some (IString kind) ->
     raw !! "identity_ids" = Some (ISet (IString <$> ids)) ->
     ExpandSystemOrSingleUserAssignedMap emptyDetails (IMap raw :: rest)
     = Returned v ->
     rangeOrder (IdentityIds v) order ->
     exists outs : list string,
       returned (FlattenSystemOrSingleUserAssignedMap normalizeType Parse ID
                   order (Some v))
       = Ok [IMap (<["type" := IString kind]>
                  (<["identity_ids" := IStrings outs]>
                  (<["principal_id" := IString ""]>
                  (<["tenant_id" := IString ""]> ∅))))]
       /\ (forall out, out ∈ outs <->
                       exists r, r ∈ ids /\ rendered Parse ID r out)
       /\ ((forall r, r ∈ ids -> rendered Parse ID r r) ->
           forall x, x ∈ outs <-> x ∈ ids))
  /\ (forall (identity : ModelSystemAssignedUserAssigned)
             (rest : list ModelSystemAssignedUserAssigned)
             (v : @SystemOrSingleUserAssignedMap UserAssignedIdentityDetails),
       ModelType identity = kind ->
       ModelIdentityIds identity = ids ->
       ExpandSystemOrSingleUserAssignedMapFromModel emptyDetails
         (identity :: rest) = Returned v ->
       rangeOrder (IdentityIds v) order ->
       exists outs : list string,
         returned (FlattenSystemOrSingleUserAssignedMapToModel normalizeType
                     Parse ID order (Some v))
         = Ok [{| ModelType := kind; ModelIdentityIds := outs;
                  ModelPrincipalId := ""; ModelTenantId := "" |}]
         /\ (forall out, out ∈ outs <->
                         exists r, r ∈ ids /\ rendered Parse ID r out)
         /\ ((forall r, r ∈ ids -> rendered Parse ID r r) ->
             forall x, x ∈ outs <-> x ∈ ids)).
Proof.
  intros Hk Hwf. split.
  - intros raw rest v Ht Hi Hv Ho.
    rewrite (Expand_built emptyDetails _ kind ids) in Hv.
    + destruct (flatten_after_validate kind ids order v Hk Hwf Hv Ho)
        as (outs & H1 & _ & H3 & H4).
      exists outs. split; [exact H1|]. split; [exact H3|exact H4].
    + right. exists raw, rest, kind. rewrite (kindOf_kind kind Hk).
      repeat split; assumption.
  - intros identity rest v Ht Hi Hv Ho.
    rewrite (ExpandFromModel_built emptyDetails _ kind ids) in Hv.
    + destruct (flatten_after_validate kind ids order v Hk Hwf Hv Ho)
        as (outs & _ & H2 & H3 & H4).
      exists outs. split; [exact H2|]. split; [exact H3|exact H4].
    + right. exists identity, rest. repeat split; congruence.
Qed.

End RoundTrip.

(** * Further properties of the converter *)

(** ** Expand *)

Section ExpandFurther.

Context {UserAssignedIdentityDetails : Type}.
Variable emptyDetails : UserAssignedIdentityDetails.

Abbreviation Identity := (@SystemOrSingleUserAssignedMap UserAssignedIdentityDetails).
Abbreviation Expand := (ExpandSystemOrSingleUserAssignedMap emptyDetails).
Abbreviation ExpandFromModel :=
  (ExpandSystemOrSingleUserAssignedMapFromModel emptyDetails).
Abbreviation built ids := (collectIds emptyDetails ids ∅).

Lemma collectIds_lookup (ids : list string)
    (acc : gmap string UserAssignedIdentityDetails) (k : string) :
  collectIds emptyDetails ids acc !! k
  = if decide (k ∈ ids) then Some emptyDetails else acc !! k.
Proof.
  revert acc. induction ids as [|v rest IH]; intros acc.
  - destruct (decide (k ∈ [])) as [H|_]; [inversion H|reflexivity].
  - change (collectIds emptyDetails (v :: rest) acc)
      with (collectIds emptyDetails rest (<[v := emptyDetails]> acc)).
    rewrite IH. destruct (decide (k ∈ rest)) as [Hin|Hin].
    + rewrite decide_True by (right; exact Hin). reflexivity.
    + destruct (decide (k = v)) as [->|Hne].
      * rewrite decide_True by left. apply lookup_insert_eq.
      * rewrite decide_False
          by (intros H; apply elem_of_cons in H as [?|?]; contradiction).
        apply lookup_insert_ne. congruence.
Qed.

Lemma built_same_set (ids ids' : list string) :
  (forall k, k ∈ ids <-> k ∈ ids') -> built ids = built ids'.
Proof.
  intros H. apply map_eq. intros k. rewrite !collectIds_lookup.
  destruct (decide (k ∈ ids)) as [Hin|Hin].
  - rewrite decide_True by (apply H, Hin). reflexivity.
  - rewrite decide_False by (intros Hin'; apply Hin, H, Hin'). reflexivity.
Qed.

Lemma Expand_Returned (input : list iface) (v : Identity) :
  Expand input = Returned v ->
  exists (kind : string) (ids : list string),
    untypedInput input kind ids /\ validate kind (built ids) = Returned v.
Proof.
  intros H.
  assert (Hnp : Expand input <> Panicked) by (rewrite H; discriminate).
  destruct (Expand_not_Panicked _ _ Hnp) as (kind & ids & Hb).
  exists kind, ids. split; [exact Hb|].
  rewrite <- (Expand_built _ _ _ _ Hb). exact H.
Qed.

Lemma ExpandFromModel_Returned (input : list ModelSystemAssignedUserAssigned)
    (v : Identity) :
  ExpandFromModel input = Returned v ->
  exists (kind : string) (ids : list string),
    typedInput input kind ids /\ validate kind (built ids) = Returned v.
Proof.
  intros H. destruct (typedInput_total input) as (kind & ids & Hb).
  exists kind, ids. split; [exact Hb|].
  rewrite <- (ExpandFromModel_built _ _ _ _ Hb). exact H.
Qed.

(** X1: a value that an Expand function returns has an empty
    PrincipalId and an empty TenantId. *)
Theorem expand_blank_server_fields (v : Identity) :
  (exists input,
     ExpandSystemOrSingleUserAssignedMap emptyDetails input = Returned v)
  \/ (exists input,
        ExpandSystemOrSingleUserAssignedMapFromModel emptyDetails input
        = Returned v) ->
  PrincipalId v = "" /\ TenantId v = "".
Proof.
  intros [[input H] | [input H]].
  - destruct (Expand_Returned _ _ H) as (kind & ids & _ & Hv).
    apply validate_Returned in Hv as (-> & _). split; reflexivity.
  - destruct (ExpandFromModel_Returned _ _ H) as (kind & ids & _ & Hv).
    apply validate_Returned in Hv as (-> & _). split; reflexivity.
Qed.

(** X2: the value that an Expand function returns has the kind of the
    input as its Type, the supplied identity IDs as the keys of
    IdentityIds, and the empty details under each key. *)
Theorem expand_built_ids (kind : string) (ids : list string) (v : Identity) :
  (exists input, untypedInput input kind ids /\ Expand input = Returned v)
  \/ (exists input, typedInput input kind ids
                    /\ ExpandFromModel input = Returned v) ->
  Type_ v = kind
  /\ forall k : string,
       IdentityIds v !! k
       = if decide (k ∈ ids) then Some emptyDetails else None.
Proof.
  intros H.
  assert (Hv : validate kind (built ids) = Returned v).
  { destruct H as [(input & Hb & H) | (input & Hb & H)].
    - rewrite <- (Expand_built _ _ _ _ Hb). exact H.
    - rewrite <- (ExpandFromModel_built _ _ _ _ Hb). exact H. }
  apply validate_Returned in Hv as (-> & _). split; [reflexivity|].
  intros k. simpl. rewrite collectIds_lookup, lookup_empty. reflexivity.
Qed.

(** X3: the result of an Expand function depends on the supplied
    identity IDs as a set only: two inputs of the same kind whose lists
    of IDs have the same members give the same result, whatever the
    order of the lists and however often an ID is repeated.  The typed
    inputs are taken with a first element, so that both results come
    from the map built at line 137. *)
Theorem expand_ids_as_set (kind : string) (ids ids' : list string) :
  (forall k, k ∈ ids <-> k ∈ ids') ->
  (forall input input' : list iface,
     untypedInput input kind ids -> untypedInput input' kind ids' ->
     Expand input = Expand input')
  /\ (forall (identity identity' : ModelSystemAssignedUserAssigned)
             (rest rest' : list ModelSystemAssignedUserAssigned),
       typedInput (identity :: rest) kind ids ->
       typedInput (identity' :: rest') kind ids' ->
       ExpandFromModel (identity :: rest) = ExpandFromModel (identity' :: rest')).
Proof.
  intros Hset. split.
  - intros input input' Hb Hb'.
    rewrite (Expand_built _ _ _ _ Hb), (Expand_built _ _ _ _ Hb').
    rewrite (built_same_set _ _ Hset). reflexivity.
  - intros identity identity' rest rest' Hb Hb'.
    rewrite (ExpandFromModel_built _ _ _ _ Hb),
      (ExpandFromModel_built _ _ _ _ Hb').
    rewrite (built_same_set _ _ Hset). reflexivity.
Qed.

(** X4: the two Expand functions agree: an untyped input and a typed
    input with a first element that supply the same kind and the same
    identity IDs give the same result.  (For the empty typed input
    line 131 returns a nil map where the untyped function returns an
    empty one.) *)
Theorem expand_variants_agree (kind : string) (ids : list string)
    (input : list iface) (identity : ModelSystemAssignedUserAssigned)
    (rest : list ModelSystemAssignedUserAssigned) :
  untypedInput input kind ids ->
  typedInput (identity :: rest) kind ids ->
  Expand input = ExpandFromModel (identity :: rest).
Proof.
  intros Hb Hb'.
  rewrite (Expand_built _ _ _ _ Hb), (ExpandFromModel_built _ _ _ _ Hb').
  reflexivity.
Qed.

Lemma kindOf_literal (typeRaw : string) : kindLiteral (kindOf typeRaw).
Proof.
  unfold kindOf, kindLiteral.
  destruct (decide (typeRaw = TypeUserAssigned)); [right; right; reflexivity|].
  destruct (decide (typeRaw = TypeSystemAssigned)); [right; left|left]; reflexivity.
Qed.

(** X5: the untyped Expand returns one of the three kind literals as
    Type, mapping every other [type] string to None, while the typed
    Expand keeps the Type of its first element, whatever string it is. *)
Theorem expand_result_type :
  (forall (input : list iface) (v : Identity),
     Expand input = Returned v -> kindLiteral (Type_ v))
  /\ (forall (raw : gmap string iface) (rest : list iface) (typeRaw : string)
             (v : Identity),
       raw !! "type" = Some (IString typeRaw) ->
       typeRaw <> TypeSystemAssigned -> typeRaw <> TypeUserAssigned ->
       Expand (IMap raw :: rest) = Returned v -> Type_ v = TypeNone)
  /\ (forall (identity : ModelSystemAssignedUserAssigned)
             (rest : list ModelSystemAssignedUserAssigned) (v : Identity),
       ExpandFromModel (identity :: rest) = Returned v ->
       Type_ v = ModelType identity).
Proof.
  split; [|split].
  - intros input v H.
    destruct (Expand_Returned _ _ H) as (kind & ids & Hb & Hv).
    apply validate_Returned in Hv as (-> & _). simpl.
    destruct Hb as [(_ & -> & _) | (raw & rest & typeRaw & _ & _ & _ & ->)].
    + left. reflexivity.
    + apply kindOf_literal.
  - intros raw rest typeRaw v Ht Hsa Hua H. simpl in H. rewrite Ht in H.
    destruct (raw !! "identity_ids") as [[| | | |l| |]|]; try discriminate.
    destruct (collectRaw emptyDetails l ∅); [|discriminate].
    apply validate_Returned in H as (-> & _). simpl. unfold kindOf.
    rewrite !decide_False by assumption. reflexivity.
  - intros identity rest v H. simpl in H.
    apply validate_Returned in H as (-> & _). reflexivity.
Qed.

Lemma built_nonempty (ids : list string) :
  ids <> [] -> 0 < size (built ids).
Proof.
  intros Hne. destruct ids as [|k rest]; [contradiction|].
  apply Nat.neq_0_lt_0. apply map_size_non_empty_iff.
  intros He. assert (Hk : built (k :: rest) !! k = Some emptyDetails).
  { rewrite collectIds_lookup. rewrite decide_True by left. reflexivity. }
  rewrite He, lookup_empty in Hk. discriminate.
Qed.

Lemma validate_SystemAssigned (ids : list string) :
  (ids = [] ->
   validate TypeSystemAssigned (built ids)
   = Returned {| Type_ := TypeSystemAssigned; PrincipalId := "";
                 TenantId := ""; IdentityIds := ∅ |})
  /\ (ids <> [] ->
      validate TypeSystemAssigned (built ids)
      = Failed errIdentityIdsNotAllowed).
Proof.
  unfold validate.
  rewrite (decide_False (P := TypeSystemAssigned = TypeUserAssigned))
    by discriminate.
  split.
  - intros ->. simpl. rewrite decide_False; [reflexivity|].
    rewrite map_size_empty. intros [H _]. lia.
  - intros Hne. rewrite decide_True; [reflexivity|].
    split; [apply built_nonempty, Hne|reflexivity].
Qed.

(** X6: when the kind is SystemAssigned, an Expand function succeeds
    with an empty IdentityIds if no identity ID is supplied, and fails
    with the third message if at least one is supplied. *)
Theorem expand_system_assigned (ids : list string) :
  (forall input : list iface,
     untypedInput input TypeSystemAssigned ids ->
     (ids = [] ->
      Expand input
      = Returned {| Type_ := TypeSystemAssigned; PrincipalId := "";
                    TenantId := ""; IdentityIds := ∅ |})
     /\ (ids <> [] -> Expand input = Failed errIdentityIdsNotAllowed))
  /\ (forall input : list ModelSystemAssignedUserAssigned,
       typedInput input TypeSystemAssigned ids ->
       (ids = [] ->
        ExpandFromModel input
        = Returned {| Type_ := TypeSystemAssigned; PrincipalId := "";
                      TenantId := ""; IdentityIds := ∅ |})
       /\ (ids <> [] -> ExpandFromModel input = Failed errIdentityIdsNotAllowed)).
Proof.
  split; intros input Hb.
  - rewrite (Expand_built _ _ _ _ Hb). apply validate_SystemAssigned.
  - rewrite (ExpandFromModel_built _ _ _ _ Hb). apply validate_SystemAssigned.
Qed.

(** X7: when the kind is neither SystemAssigned nor UserAssigned, an
    Expand function never returns an error: it returns the kind with
    the identity IDs that were supplied, however many there are. *)
Theorem expand_other_kind (kind : string) (ids : list string) :
  kind <> TypeSystemAssigned -> kind <> TypeUserAssigned ->
  (forall input : list iface,
     untypedInput input kind ids ->
     Expand input
     = Returned {| Type_ := kind; PrincipalId := ""; TenantId := "";
                   IdentityIds := collectIds emptyDetails ids ∅ |})
  /\ (forall input : list ModelSystemAssignedUserAssigned,
       typedInput input kind ids ->
       ExpandFromModel input
       = Returned {| Type_ := kind; PrincipalId := ""; TenantId := "";
                     IdentityIds := collectIds emptyDetails ids ∅ |}).
Proof.
  intros Hsa Hua.
  assert (Hv : validate kind (built ids)
               = Returned {| Type_ := kind; PrincipalId := ""; TenantId := "";
                             IdentityIds := built ids |}).
  { unfold validate. rewrite (decide_False (P := kind = _)) by exact Hua.
    rewrite decide_False; [reflexivity|]. intros [_ H]. contradiction. }
  split; intros input Hb.
  - rewrite (Expand_built _ _ _ _ Hb). exact Hv.
  - rewrite (ExpandFromModel_built _ _ _ _ Hb). exact Hv.
Qed.

End ExpandFurther.

(** ** MarshalJSON *)

Section MarshalFurther.

Context {UserAssignedIdentityDetails : Type}.
Variable emptyDetails : UserAssignedIdentityDetails.
Variable marshalDetails : UserAssignedIdentityDetails -> json.

Abbreviation Identity := (@SystemOrSingleUserAssignedMap UserAssignedIdentityDetails).
Abbreviation Marshal := (MarshalJSON marshalDetails).
Abbreviation Expand := (ExpandSystemOrSingleUserAssignedMap emptyDetails).
Abbreviation ExpandFromModel :=
  (ExpandSystemOrSingleUserAssignedMapFromModel emptyDetails).

Lemma resolvedType_Some (s : Identity) :
  (Type_ s = TypeSystemAssigned \/ Type_ s = TypeUserAssigned ->
   resolvedType (Some s) = Type_ s)
  /\ (Type_ s <> TypeSystemAssigned -> Type_ s <> TypeUserAssigned ->
      resolvedType (Some s) = TypeNone).
Proof.
  unfold resolvedType, resolve. simpl. split.
  - intros [H|H]; rewrite H; reflexivity.
  - intros Hsa Hua. rewrite !decide_False by assumption. reflexivity.
Qed.

(** X8: the [type] that MarshalJSON writes is always one of the three
    kind literals: the Type of the receiver when that is SystemAssigned
    or UserAssigned, and None for a nil receiver and for every other
    Type string. *)
Theorem marshal_type (s : option Identity) :
  exists fields : gmap string json,
    Marshal s = JObject fields
    /\ fields !! "type" = Some (JString (resolvedType s))
    /\ kindLiteral (resolvedType s)
    /\ (s = None -> resolvedType s = TypeNone)
    /\ (forall s0, s = Some s0 ->
          (Type_ s0 = TypeSystemAssigned \/ Type_ s0 = TypeUserAssigned ->
           resolvedType s = Type_ s0)
          /\ (Type_ s0 <> TypeSystemAssigned -> Type_ s0 <> TypeUserAssigned ->
              resolvedType s = TypeNone)).
Proof.
  eexists. split; [apply Marshal_fields|].
  split; [rewrite lookup_insert_ne by discriminate; apply lookup_singleton_eq|].
  split; [apply resolvedType_cases|].
  split; [intros ->; reflexivity|].
  intros s0 ->. apply resolvedType_Some.
Qed.

(** X9: a receiver whose Type is neither SystemAssigned nor
    UserAssigned is written like a nil receiver, whatever its
    IdentityIds holds. *)
Theorem marshal_none_like_nil (s : Identity) :
  Type_ s <> TypeSystemAssigned -> Type_ s <> TypeUserAssigned ->
  Marshal (Some s) = Marshal None.
Proof.
  intros Hsa Hua. rewrite !Marshal_fields.
  rewrite (proj2 (resolvedType_Some s) Hsa Hua).
  rewrite !decide_True by (left; reflexivity). reflexivity.
Qed.

Lemma map_size_one (m : gmap string UserAssignedIdentityDetails) :
  size m = 1 -> exists (i : string) (x : UserAssignedIdentityDetails),
                  m = {[i := x]}.
Proof.
  intros Hs. destruct (map_choose m) as (i & x & Hi).
  { apply map_size_non_empty_iff. rewrite Hs. discriminate. }
  exists i, x. rewrite <- (insert_delete_id m i x Hi).
  assert (Hd : delete i m = ∅).
  { apply map_size_empty_iff.
    rewrite map_size_delete_Some by (exists x; exact Hi). rewrite Hs. reflexivity. }
  rewrite Hd. apply insert_empty.
Qed.

Lemma expand_value (v : Identity) :
  (exists input, Expand input = Returned v)
  \/ (exists input, ExpandFromModel input = Returned v) ->
  (forall k d, IdentityIds v !! k = Some d -> d = emptyDetails)
  /\ (Type_ v = TypeUserAssigned -> size (IdentityIds v) = 1)
  /\ (Type_ v = TypeSystemAssigned -> size (IdentityIds v) = 0).
Proof.
  intros H.
  assert (Hv : exists kind ids,
            validate kind (collectIds emptyDetails ids ∅) = Returned v).
  { destruct H as [[input H] | [input H]].
    - destruct (Expand_Returned _ _ _ H) as (kind & ids & _ & Hv). eauto.
    - destruct (ExpandFromModel_Returned _ _ _ H) as (kind & ids & _ & Hv). eauto. }
  destruct Hv as (kind & ids & Hv).
  apply validate_Returned in Hv as (-> & Hua & Hsa). simpl.
  split; [|split; assumption].
  intros k d. rewrite collectIds_lookup, lookup_empty.
  destruct (decide (k ∈ ids)); congruence.
Qed.

(** X10: what MarshalJSON writes for a value that an Expand function
    returned: for Type UserAssigned, the mapping from its one identity
    ID to the document of the empty details; for every other Type,
    null. *)
Theorem marshal_after_expand (v : Identity) :
  (exists input, Expand input = Returned v)
  \/ (exists input, ExpandFromModel input = Returned v) ->
  (Type_ v = TypeUserAssigned ->
   exists id : string,
     IdentityIds v = {[id := emptyDetails]}
     /\ Marshal (Some v)
       = JObject (<["userAssignedIdentities" :=
                     JObject {[id := marshalDetails emptyDetails]}]>
                    {["type" := JString TypeUserAssigned]}))
  /\ (Type_ v <> TypeUserAssigned ->
      Marshal (Some v)
      = JObject (<["userAssignedIdentities" := JNull]>
                   {["type" := JString (resolvedType (Some v))]})).
Proof.
  intros H. destruct (expand_value v H) as (Hd & Hua & Hsa).
  rewrite Marshal_fields. split.
  - intros Ht. destruct (map_size_one _ (Hua Ht)) as (id & d & Hm).
    assert (d = emptyDetails) as ->.
    { apply (Hd id). rewrite Hm. apply lookup_singleton_eq. }
    exists id. split; [exact Hm|].
    rewrite (proj1 (resolvedType_Some v)) by (right; exact Ht).
    rewrite Ht. cbn [receiverIds]. rewrite Hm.
    rewrite decide_False.
    + rewrite map_fmap_singleton. reflexivity.
    + intros [Hn|He]; [discriminate Hn|].
      apply (map_non_empty_singleton id emptyDetails). exact He.
  - intros Hne. rewrite decide_True; [reflexivity|].
    destruct (decide (Type_ v = TypeSystemAssigned)) as [Ht|Ht].
    + right. cbn [receiverIds]. apply map_size_empty_iff, Hsa, Ht.
    + left. apply (proj2 (resolvedType_Some v)); assumption.
Qed.

End MarshalFurther.

(** ** Flatten *)

Section FlattenFurther.

Context {UserAssignedIdentityDetails : Type}.
Variable normalizeType : string -> string.
Context {UserAssignedIdentityId : Type}.
Variable ParseUserAssignedIdentityIDInsensitively :
  string -> go_result UserAssignedIdentityId.
Variable ID : UserAssignedIdentityId -> string.

Abbreviation Identity := (@SystemOrSingleUserAssignedMap UserAssignedIdentityDetails).
Abbreviation Parse := ParseUserAssignedIdentityIDInsensitively.
Abbreviation Flatten :=
  (@FlattenSystemOrSingleUserAssignedMap UserAssignedIdentityDetails
     normalizeType _ Parse ID).
Abbreviation FlattenToModel :=
  (@FlattenSystemOrSingleUserAssignedMapToModel UserAssignedIdentityDetails
     normalizeType _ Parse ID).
Abbreviation render := (renderIds Parse ID).

(** X11: the two Flatten functions agree: they return the same error,
    or the untyped one returns the map that holds the four values of
    the typed element; they call the parser on the same strings and
    leave the same struct behind. *)
Theorem flatten_variants_agree (order : list string) (input : option Identity) :
  returned (Flatten order input)
  = match returned (FlattenToModel order input) with
    | Ok l => Ok (modelToIface <$> l)
    | Err msg => Err msg
    end
  /\ parse_calls (Flatten order input) = parse_calls (FlattenToModel order input)
  /\ input_after (Flatten order input) = input_after (FlattenToModel order input).
Proof.
  destruct input as [s|]; [|repeat split].
  unfold FlattenSystemOrSingleUserAssignedMap,
    FlattenSystemOrSingleUserAssignedMapToModel.
  case_decide; [repeat split|].
  destruct (render order [] []) as [calls [outs|msg]]; repeat split.
Qed.




Lemma kind_cases (t : string) :
  (t <> TypeSystemAssigned /\ t <> TypeUserAssigned)
  \/ (t = TypeSystemAssigned \/ t = TypeUserAssigned).
Proof.
  destruct (decide (t = TypeSystemAssigned)); [right; left; assumption|].
  destruct (decide (t = TypeUserAssigned)); [right; right; assumption|].
  left. split; assumption.
Qed.

Lemma render_calls (keys : list string) :
  forall acc calls : list string,
  exists c : list string,
    (render keys acc calls).1 = (calls ++ c)%list
    /\ c `prefix_of` keys
    /\ forall outs, (render keys acc calls).2 = Ok outs ->
         c = keys /\ outs = (acc ++ (renderOf Parse ID <$> keys))%list.
Proof.
  induction keys as [|raw rest IH]; intros acc calls.
  - exists []. simpl. rewrite !app_nil_r.
    split; [reflexivity|]. split; [apply prefix_nil|].
    intros outs H. inversion H. split; reflexivity.
  - simpl. destruct (Parse raw) as [id|err] eqn:Hp.
    + destruct (IH (acc ++ [ID id])%list (calls ++ [raw])%list)
        as (c & H1 & H2 & H3).
      exists (raw :: c). rewrite H1, <- app_assoc.
      split; [reflexivity|]. split; [apply prefix_cons, H2|].
      intros outs Ho. destruct (H3 outs Ho) as [-> ->].
      split; [reflexivity|]. unfold renderOf at 2. rewrite Hp.
      rewrite <- app_assoc. reflexivity.
    + exists [raw]. split; [reflexivity|].
      split; [apply prefix_cons, prefix_nil|]. intros outs H. discriminate H.
Qed.

Lemma render_Err (keys : list string) :
  forall (acc calls : list string) (msg : string),
    (render keys acc calls).2 = Err msg ->
    exists raw err, raw ∈ keys /\ Parse raw = Err err.
Proof.
  induction keys as [|raw rest IH]; intros acc calls msg H; simpl in H.
  - discriminate H.
  - destruct (Parse raw) as [id|err] eqn:Hp.
    + destruct (IH _ _ _ H) as (r & e & Hin & He).
      exists r, e. split; [right; exact Hin|exact He].
    + exists raw, err. split; [left|exact Hp].
Qed.

Lemma flatten_unfold (order : list string) (s : Identity) :
  normalizeType (Type_ s) = TypeSystemAssigned
  \/ normalizeType (Type_ s) = TypeUserAssigned ->
  parse_calls (Flatten order (Some s)) = (render order [] []).1
  /\ parse_calls (FlattenToModel order (Some s)) = (render order [] []).1
  /\ returned (FlattenToModel order (Some s))
     = match (render order [] []).2 with
       | Err msg => Err msg
       | Ok identityIds =>
           Ok [{| ModelType := normalizeType (Type_ s);
                  ModelIdentityIds := identityIds;
                  ModelPrincipalId := PrincipalId s;
                  ModelTenantId := TenantId s |}]
       end.
Proof.
  intros Hk. destruct (render order [] []) as [calls ids] eqn:E.
  destruct (flatten_renders normalizeType Parse ID order s calls ids Hk E)
    as (_ & H2 & H3 & H4).
  split; [exact H3|]. split; [exact H4|exact H2].
Qed.

Lemma rangeOrder_length (m : gmap string UserAssignedIdentityDetails)
    (order : list string) :
  rangeOrder m order -> length order = size m.
Proof.
  unfold rangeOrder. intros ->. rewrite length_fmap. apply length_map_to_list.
Qed.

(** X13: a Flatten call hands the keys to the parser in range order,
    each at most once, and stops at the first key that does not parse:
    when it returns an error, its calls are the keys before that key,
    which all parse, and then that key, and no key after it.  When it
    succeeds with an element, it has parsed every key and the element
    lists as many identity IDs as IdentityIds has entries. *)
Theorem flatten_parse_calls (order : list string) (input : option Identity) :
  parse_calls (Flatten order input) `prefix_of` order
  /\ parse_calls (FlattenToModel order input) `prefix_of` order
  /\ (isErr (returned (Flatten order input))
      \/ isErr (returned (FlattenToModel order input)) ->
      exists (pre : list string) (raw : string) (post : list string)
             (err : string),
        order = (pre ++ raw :: post)%list
        /\ (forall k, k ∈ pre -> exists id, Parse k = Ok id)
        /\ Parse raw = Err err
        /\ parse_calls (Flatten order input) = (pre ++ [raw])%list
        /\ parse_calls (FlattenToModel order input) = (pre ++ [raw])%list)
  /\ forall (s : Identity) (m : ModelSystemAssignedUserAssigned),
       input = Some s ->
       rangeOrder (IdentityIds s) order ->
       returned (FlattenToModel order input) = Ok [m] ->
       parse_calls (FlattenToModel order input) = order
       /\ parse_calls (Flatten order input) = order
       /\ length (ModelIdentityIds m) = size (IdentityIds s).
Proof.
  destruct input as [s|].
  2:{ split; [apply prefix_nil|]. split; [apply prefix_nil|].
      split; [intros [[msg H]|[msg H]]; discriminate H|intros; discriminate]. }
  destruct (kind_cases (normalizeType (Type_ s))) as [Hk|Hk].
  - unfold FlattenSystemOrSingleUserAssignedMap,
      FlattenSystemOrSingleUserAssignedMapToModel. simpl.
    rewrite !decide_True by exact Hk. simpl.
    split; [apply prefix_nil|]. split; [apply prefix_nil|].
    split; [intros [[msg H]|[msg H]]; discriminate H|].
    intros s0 m _ _ H. discriminate H.
  - destruct (flatten_unfold order s Hk) as (H1 & H2 & H3).
    destruct (render order [] []) as [calls ids] eqn:E.
    destruct (flatten_renders normalizeType Parse ID order s calls ids Hk E)
      as (H4 & _).
    destruct (render_calls order [] []) as (c & Hc & Hp & Hok).
    rewrite E in Hc, Hok. cbn [fst snd] in Hc, Hok, H1, H2, H3.
    rewrite app_nil_l in Hc. subst c. rewrite H1, H2.
    split; [exact Hp|]. split; [exact Hp|]. split.
    + intros Herr.
      assert (Hids : exists msg, ids = Err msg).
      { destruct ids as [outs|msg]; [|exists msg; reflexivity].
        destruct Herr as [[msg H]|[msg H]].
        - rewrite H4 in H. discriminate H.
        - rewrite H3 in H. discriminate H. }
      destruct Hids as [msg ->].
      assert (E2 : (render order [] []).2 = Err msg) by (rewrite E; reflexivity).
      destruct (render_Err _ _ _ _ E2) as (r & e & Hin & He).
      destruct (render_some_fails Parse ID order)
        as (pre & raw & post & err & Hsplit & Hpre & Hraw & Hr).
      { exists r, e. split; assumption. }
      exists pre, raw, post, err.
      split; [exact Hsplit|]. split; [exact Hpre|]. split; [exact Hraw|].
      destruct (Hr [] []) as [Hcalls _]. rewrite E in Hcalls.
      cbn [fst] in Hcalls. rewrite app_nil_l in Hcalls.
      split; exact Hcalls.
    + intros s0 m Hs Ho Hr. injection Hs as <-. rewrite H3 in Hr.
      destruct ids as [outs|msg]; [|discriminate Hr].
      destruct (Hok outs eq_refl) as [-> ->]. inversion Hr. simpl.
      repeat split. rewrite length_fmap. apply rangeOrder_length, Ho.
Qed.

Lemma flatten_isErr (order : list string) (s : Identity) :
  rangeOrder (IdentityIds s) order ->
  normalizeType (Type_ s) = TypeSystemAssigned
  \/ normalizeType (Type_ s) = TypeUserAssigned ->
  (isErr (returned (FlattenToModel order (Some s)))
   <-> exists raw err, is_Some (IdentityIds s !! raw) /\ Parse raw = Err err)
  /\ (isErr (returned (Flatten order (Some s)))
      <-> exists raw err, is_Some (IdentityIds s !! raw) /\ Parse raw = Err err).
Proof.
  intros Ho Hk.
  assert (Hback : (exists raw err, is_Some (IdentityIds s !! raw)
                                   /\ Parse raw = Err err) ->
                  isErr (returned (FlattenToModel order (Some s)))
                  /\ isErr (returned (Flatten order (Some s)))).
  { intros Hf.
    destruct (flatten_some_fails normalizeType Parse ID order s Ho Hk Hf)
      as (pre & raw & post & err & _ & _ & _ & _ & H1 & H2).
    split; eexists; eassumption. }
  assert (Hfwd : forall msg, (render order [] []).2 = Err msg ->
                 exists raw err, is_Some (IdentityIds s !! raw)
                                 /\ Parse raw = Err err).
  { intros msg E. destruct (render_Err _ _ _ _ E) as (raw & err & Hin & Hp).
    exists raw, err. split; [|exact Hp].
    apply (rangeOrder_elem _ _ _ Ho), Hin. }
  destruct (render order [] []) as [calls ids] eqn:E.
  destruct (flatten_renders normalizeType Parse ID order s calls ids Hk E)
    as (H1 & H2 & _).
  split; (split; [|intros Hf; apply Hback, Hf]).
  - intros [msg Hm]. rewrite H2 in Hm.
    destruct ids as [outs|msg']; [discriminate Hm|]. eapply Hfwd. reflexivity.
  - intros [msg Hm]. rewrite H1 in Hm.
    destruct ids as [outs|msg']; [discriminate Hm|]. eapply Hfwd. reflexivity.
Qed.

(** X14: for an input whose normalized kind is SystemAssigned or
    UserAssigned, a Flatten call returns an error if and only if some
    entry of IdentityIds does not parse. *)
Theorem flatten_fails_iff (order : list string) (s : Identity) :
  rangeOrder (IdentityIds s) order ->
  normalizeType (Type_ s) = TypeSystemAssigned
  \/ normalizeType (Type_ s) = TypeUserAssigned ->
  (isErr (returned (Flatten order (Some s)))
   <-> exists raw err, is_Some (IdentityIds s !! raw) /\ Parse raw = Err err)
  /\ (isErr (returned (FlattenToModel order (Some s)))
      <-> exists raw err, is_Some (IdentityIds s !! raw) /\ Parse raw = Err err).
Proof.
  intros Ho Hk. destruct (flatten_isErr order s Ho Hk) as [H1 H2].
  split; assumption.
Qed.

(** X15: the order in which Go ranges over IdentityIds does not decide
    whether a Flatten call fails, and when it succeeds the order only
    permutes the identity IDs of the element: Type, PrincipalId and
    TenantId are the same, and the lists of IDs are rearrangements of
    one another. *)
Theorem flatten_order_irrelevant (order1 order2 : list string) (s : Identity) :
  rangeOrder (IdentityIds s) order1 ->
  rangeOrder (IdentityIds s) order2 ->
  (isErr (returned (FlattenToModel order1 (Some s)))
   <-> isErr (returned (FlattenToModel order2 (Some s))))
  /\ (isErr (returned (Flatten order1 (Some s)))
      <-> isErr (returned (Flatten order2 (Some s))))
  /\ forall l1 l2 : list ModelSystemAssignedUserAssigned,
       returned (FlattenToModel order1 (Some s)) = Ok l1 ->
       returned (FlattenToModel order2 (Some s)) = Ok l2 ->
       Forall2 (fun m1 m2 =>
                  ModelType m1 = ModelType m2
                  /\ ModelIdentityIds m1 ≡ₚ ModelIdentityIds m2
                  /\ ModelPrincipalId m1 = ModelPrincipalId m2
                  /\ ModelTenantId m1 = ModelTenantId m2) l1 l2.
Proof.
  intros Ho1 Ho2.
  destruct (kind_cases (normalizeType (Type_ s))) as [Hk|Hk].
  - unfold FlattenSystemOrSingleUserAssignedMap,
      FlattenSystemOrSingleUserAssignedMapToModel. simpl.
    rewrite !decide_True by exact Hk. simpl.
    split; [reflexivity|]. split; [reflexivity|].
    intros l1 l2 H1 H2. inversion H1. inversion H2. constructor.
  - destruct (flatten_isErr order1 s Ho1 Hk) as [Ha1 Hb1].
    destruct (flatten_isErr order2 s Ho2 Hk) as [Ha2 Hb2].
    split; [rewrite Ha1, Ha2; reflexivity|].
    split; [rewrite Hb1, Hb2; reflexivity|].
    intros l1 l2 H1 H2.
    destruct (flatten_unfold order1 s Hk) as (_ & _ & E1).
    destruct (flatten_unfold order2 s Hk) as (_ & _ & E2).
    rewrite E1 in H1. rewrite E2 in H2.
    destruct (render_calls order1 [] []) as (c1 & _ & _ & Hok1).
    destruct (render_calls order2 [] []) as (c2 & _ & _ & Hok2).
    destruct ((render order1 [] []).2) as [outs1|?]; [|discriminate H1].
    destruct ((render order2 [] []).2) as [outs2|?]; [|discriminate H2].
    destruct (Hok1 outs1 eq_refl) as [_ ->].
    destruct (Hok2 outs2 eq_refl) as [_ ->].
    inversion H1. inversion H2. constructor; [|constructor]. simpl.
    repeat split. apply fmap_Permutation.
    unfold rangeOrder in Ho1, Ho2. rewrite Ho1, Ho2. reflexivity.
Qed.

(** X16: the list of a successful typed Flatten call is empty or
    holds one element; an element has the normalized kind as its Type,
    which is then SystemAssigned or UserAssigned, and the PrincipalId
    and TenantId of the struct; the list is empty exactly when the
    input is nil or its normalized kind is neither of the two. *)
Theorem flatten_output_shape (order : list string) (input : option Identity)
    (l : list ModelSystemAssignedUserAssigned) :
  returned (FlattenToModel order input) = Ok l ->
  (l = []
   /\ (input = None
       \/ exists s, input = Some s
                    /\ normalizeType (Type_ s) <> TypeSystemAssigned
                    /\ normalizeType (Type_ s) <> TypeUserAssigned))
  \/ (exists (s : Identity) (m : ModelSystemAssignedUserAssigned),
        input = Some s /\ l = [m]
        /\ ModelType m = normalizeType (Type_ s)
        /\ (ModelType m = TypeSystemAssigned \/ ModelType m = TypeUserAssigned)
        /\ ModelPrincipalId m = PrincipalId s
        /\ ModelTenantId m = TenantId s).
Proof.
  intros Hr. destruct input as [s|].
  - destruct (kind_cases (normalizeType (Type_ s))) as [Hk|Hk].
    + left. unfold FlattenSystemOrSingleUserAssignedMapToModel in Hr.
      simpl in Hr. rewrite decide_True in Hr by exact Hk. inversion Hr.
      split; [reflexivity|]. right. exists s. destruct Hk. repeat split; assumption.
    + right. destruct (flatten_unfold order s Hk) as (_ & _ & E).
      rewrite E in Hr.
      destruct ((render order [] []).2) as [outs|msg]; [|discriminate Hr].
      inversion Hr. eexists s, _. repeat split. exact Hk.
  - left. inversion Hr. split; [reflexivity|left; reflexivity].
Qed.

End FlattenFurther.

(** ** Flatten, then Expand *)

Section FlattenThenExpand.

Context {UserAssignedIdentityDetails : Type}.
Variable emptyDetails : UserAssignedIdentityDetails.
Variable normalizeType : string -> string.
Context {UserAssignedIdentityId : Type}.
Variable ParseUserAssignedIdentityIDInsensitively :
  string -> go_result UserAssignedIdentityId.
Variable ID : UserAssignedIdentityId -> string.

Abbreviation Identity := (@SystemOrSingleUserAssignedMap UserAssignedIdentityDetails).
Abbreviation Parse := ParseUserAssignedIdentityIDInsensitively.
Abbreviation Flatten :=
  (@FlattenSystemOrSingleUserAssignedMap UserAssignedIdentityDetails
     normalizeType _ Parse ID).
Abbreviation FlattenToModel :=
  (@FlattenSystemOrSingleUserAssignedMapToModel UserAssignedIdentityDetails
     normalizeType _ Parse ID).
Abbreviation Expand := (ExpandSystemOrSingleUserAssignedMap emptyDetails).
Abbreviation ExpandFromModel :=
  (ExpandSystemOrSingleUserAssignedMapFromModel emptyDetails).

(** X17: the list that the untyped Flatten returns is not an input of
    the untyped Expand: when it holds an element, the [identity_ids] of
    that element is a slice of strings and not a schema set, and Expand
    panics on it. *)
Theorem expand_of_flatten_panics (order : list string)
    (input : option Identity) (out : list iface) :
  returned (Flatten order input) = Ok out ->
  out <> [] ->
  Expand out = Panicked.
Proof.
  intros Hr Hne. destruct input as [s|]; [|inversion Hr; subst; contradiction].
  unfold FlattenSystemOrSingleUserAssignedMap in Hr.
  case_decide; [inversion Hr; subst; contradiction|].
  destruct (renderIds Parse ID order [] []) as [calls [outs|msg]];
    [|discriminate Hr].
  cbn [returned] in Hr. inversion Hr.
  unfold ExpandSystemOrSingleUserAssignedMap.
  rewrite lookup_insert_eq.
  rewrite lookup_insert_ne by discriminate.
  rewrite lookup_insert_eq. reflexivity.
Qed.

Lemma validate_single (id : string) :
  validate TypeUserAssigned (collectIds emptyDetails [id] ∅)
  = Returned {| Type_ := TypeUserAssigned; PrincipalId := ""; TenantId := "";
                IdentityIds := {[id := emptyDetails]} |}.
Proof.
  change (collectIds emptyDetails [id] ∅)
    with (<[id := emptyDetails]> (∅ : gmap string UserAssignedIdentityDetails)).
  rewrite insert_empty. unfold validate.
  rewrite decide_True by reflexivity. rewrite map_size_singleton.
  rewrite decide_False by discriminate.
  rewrite decide_False by lia.
  rewrite decide_False by (intros [_ H]; discriminate H). reflexivity.
Qed.

(** X18: typed Flatten, then typed Expand.  For a struct whose
    normalized kind is neither SystemAssigned nor UserAssigned the
    result is the value of Type None without identity IDs; for
    normalized kind SystemAssigned and no identity IDs it is the value
    of Type SystemAssigned; for normalized kind UserAssigned and one
    identity ID that parses it is the value of Type UserAssigned with
    the rendering of that ID.  PrincipalId, TenantId and the details
    of the struct are not carried over. *)
Theorem expand_of_flatten_model (order : list string) (s : Identity)
    (l : list ModelSystemAssignedUserAssigned) :
  rangeOrder (IdentityIds s) order ->
  returned (FlattenToModel order (Some s)) = Ok l ->
  (normalizeType (Type_ s) <> TypeSystemAssigned ->
   normalizeType (Type_ s) <> TypeUserAssigned ->
   ExpandFromModel l
   = Returned {| Type_ := TypeNone; PrincipalId := ""; TenantId := "";
                 IdentityIds := ∅ |})
  /\ (normalizeType (Type_ s) = TypeSystemAssigned ->
      IdentityIds s = ∅ ->
      ExpandFromModel l
      = Returned {| Type_ := TypeSystemAssigned; PrincipalId := "";
                    TenantId := ""; IdentityIds := ∅ |})
  /\ (normalizeType (Type_ s) = TypeUserAssigned ->
      forall (raw : string) (d : UserAssignedIdentityDetails)
             (id : UserAssignedIdentityId),
        IdentityIds s = {[raw := d]} ->
        Parse raw = Ok id ->
        ExpandFromModel l
        = Returned {| Type_ := TypeUserAssigned; PrincipalId := "";
                      TenantId := ""; IdentityIds := {[ID id := emptyDetails]} |}).
Proof.
  intros Ho Hr. split; [|split].
  - intros Hsa Hua.
    unfold FlattenSystemOrSingleUserAssignedMapToModel in Hr. simpl in Hr.
    rewrite decide_True in Hr by (split; assumption).
    inversion Hr. reflexivity.
  - intros Hk He.
    assert (order = []) as ->.
    { unfold rangeOrder in Ho. rewrite He, map_to_list_empty in Ho.
      apply Permutation_nil_r in Ho. exact Ho. }
    destruct (flatten_unfold normalizeType Parse ID [] s (or_introl Hk))
      as (_ & _ & E).
    rewrite E in Hr. simpl in Hr. inversion Hr. rewrite Hk.
    apply (proj1 (validate_SystemAssigned emptyDetails []) eq_refl).
  - intros Hk raw d id Hm Hp.
    assert (order = [raw]) as ->.
    { unfold rangeOrder in Ho. rewrite Hm, map_to_list_singleton in Ho.
      apply Permutation_singleton_r in Ho. exact Ho. }
    destruct (flatten_unfold normalizeType Parse ID [raw] s (or_intror Hk))
      as (_ & _ & E).
    rewrite E in Hr. simpl in Hr. rewrite Hp in Hr. simpl in Hr.
    inversion Hr. rewrite Hk. apply validate_single.
Qed.

End FlattenThenExpand.

(** * The converter on concrete inputs *)

Lemma expand_invariant_witness :
  (Type_ {| Type_ := TypeUserAssigned; PrincipalId := ""; TenantId := "";
            IdentityIds := {["/id-1" := tt]} |} = TypeUserAssigned ->
   size (IdentityIds {| Type_ := TypeUserAssigned; PrincipalId := "";
                        TenantId := ""; IdentityIds := {["/id-1" := tt]} |}) = 1)
  /\ (Type_ {| Type_ := TypeUserAssigned; PrincipalId := ""; TenantId := "";
               IdentityIds := {["/id-1" := tt]} |} = TypeSystemAssigned ->
      size (IdentityIds {| Type_ := TypeUserAssigned; PrincipalId := "";
                           TenantId := ""; IdentityIds := {["/id-1" := tt]} |}) = 0).
Proof.
  apply (expand_invariant tt).
  left.
  exists [IMap {["type" := IString "UserAssigned";
                 "identity_ids" := ISet [IString "/id-1"]]}].
  vm_compute. reflexivity.
Defined.

(** C1, as stated, fails: the untyped Expand accepts the type string
    [None] together with an identity ID and returns a value whose Type
    is not UserAssigned and whose IdentityIds is not empty. *)
Lemma expand_invariant_counterexample :
  ExpandSystemOrSingleUserAssignedMap tt
    [IMap {["type" := IString "None";
            "identity_ids" := ISet [IString "/id-1"]]}]
  = Returned {| Type_ := TypeNone; PrincipalId := ""; TenantId := "";
                IdentityIds := {["/id-1" := tt]} |}
  /\ ~ (forall v : SystemOrSingleUserAssignedMap,
          ExpandSystemOrSingleUserAssignedMap tt
            [IMap {["type" := IString "None";
                    "identity_ids" := ISet [IString "/id-1"]]}]
          = Returned v ->
          (Type_ v = TypeUserAssigned -> size (IdentityIds v) = 1)
          /\ (Type_ v <> TypeUserAssigned -> size (IdentityIds v) = 0)).
Proof.
  assert (E : ExpandSystemOrSingleUserAssignedMap tt
    [IMap {["type" := IString "None";
            "identity_ids" := ISet [IString "/id-1"]]}]
  = Returned {| Type_ := TypeNone; PrincipalId := ""; TenantId := "";
                IdentityIds := {["/id-1" := tt]} |}) by (vm_compute; reflexivity).
  split; [exact E|].
  intros H. destruct (H _ E) as [_ H0].
  simpl in H0. rewrite map_size_singleton in H0.
  assert (1 = 0) by (apply H0; discriminate). discriminate.
Qed.

Lemma marshal_userAssignedIdentities_witness :
  exists fields : gmap string json,
    MarshalJSON sampleMarshal
      (Some {| Type_ := TypeUserAssigned; PrincipalId := "p"; TenantId := "t";
               IdentityIds := {["/id-1" := tt]} |})
    = JObject fields
    /\ fields !! "userAssignedIdentities"
       = Some (JObject {["/id-1" := JObject ∅]}).
Proof.
  destruct (marshal_userAssignedIdentities sampleMarshal
    (Some {| Type_ := TypeUserAssigned; PrincipalId := "p"; TenantId := "t";
             IdentityIds := {["/id-1" := tt]} |})) as (fields & Hm & _ & H).
  exists fields. split; [exact Hm|].
  destruct H as [_ H].
  - vm_compute. discriminate.
  - simpl. apply map_non_empty_singleton.
  - rewrite H by (intros id d _; reflexivity).
    simpl. rewrite map_fmap_singleton. reflexivity.
Defined.

(** C2, as stated, fails: for a receiver of Type SystemAssigned with
    an empty IdentityIds the resolved type is not None, yet the key
    holds null and not an empty mapping. *)
Lemma marshal_userAssignedIdentities_counterexample :
  resolvedType (Some {| Type_ := TypeSystemAssigned; PrincipalId := "";
                        TenantId := "";
                        IdentityIds := (∅ : gmap string unit) |})
  = TypeSystemAssigned
  /\ MarshalJSON sampleMarshal
       (Some {| Type_ := TypeSystemAssigned; PrincipalId := ""; TenantId := "";
                IdentityIds := ∅ |})
     = JObject {["type" := JString "SystemAssigned";
                 "userAssignedIdentities" := JNull]}
  /\ JNull <> JObject ∅.
Proof.
  split; [reflexivity|]. split; [vm_compute; reflexivity|discriminate].
Qed.

Lemma expand_error_cases_witness :
  exists (kind : string) (ids : list string),
    untypedInput
      [IMap {["type" := IString "SystemAssigned";
              "identity_ids" := ISet [IString "/id-1"]]}] kind ids
    /\ errorCases
         (ExpandSystemOrSingleUserAssignedMap tt
            [IMap {["type" := IString "SystemAssigned";
                    "identity_ids" := ISet [IString "/id-1"]]}])
         kind (distinct ids).
Proof.
  apply (proj1 (expand_error_cases tt)).
  vm_compute. discriminate.
Defined.

(** C3, as stated, fails on the text of the messages: the message of
    the first case ends in the literal between double quotes. *)
Lemma expand_error_cases_counterexample :
  ExpandSystemOrSingleUserAssignedMap tt
    [IMap {["type" := IString "UserAssigned"; "identity_ids" := ISet []]}]
  = Failed ("`identity_ids` must be specified when `type` is set to "
            ++ String dquote ("UserAssigned" ++ String dquote ""))
  /\ ExpandSystemOrSingleUserAssignedMap tt
       [IMap {["type" := IString "UserAssigned"; "identity_ids" := ISet []]}]
     <> Failed "`identity_ids` must be specified when `type` is set to UserAssigned".
Proof.
  split; [vm_compute; reflexivity|].
  vm_compute. intros H. discriminate H.
Qed.

Lemma expand_user_assigned_count_witness :
  ExpandSystemOrSingleUserAssignedMapFromModel tt
    [{| ModelType := TypeUserAssigned; ModelIdentityIds := ["/id-1"; "/id-2"];
        ModelPrincipalId := ""; ModelTenantId := "" |}]
  = Failed errIdentityIdsSingle.
Proof.
  apply (proj2 (expand_user_assigned_count tt ["/id-1"; "/id-2"])).
  - right. eexists _, _. repeat split.
  - vm_compute. lia.
Defined.

(** C4, as stated, fails: the typed Expand takes two entries that are
    equal as strings for one identity ID and succeeds. *)
Lemma expand_user_assigned_count_counterexample :
  ExpandSystemOrSingleUserAssignedMapFromModel tt
    [{| ModelType := TypeUserAssigned; ModelIdentityIds := ["/id-1"; "/id-1"];
        ModelPrincipalId := ""; ModelTenantId := "" |}]
  = Returned {| Type_ := TypeUserAssigned; PrincipalId := ""; TenantId := "";
                IdentityIds := {["/id-1" := tt]} |}
  /\ 1 < length ["/id-1"; "/id-1"].
Proof.
  split; [vm_compute; reflexivity|simpl; lia].
Qed.

Lemma expand_untyped_panics_witness :
  ExpandSystemOrSingleUserAssignedMap tt [IString "SystemAssigned"] = Panicked
  /\ ExpandSystemOrSingleUserAssignedMap tt
       [IMap {["identity_ids" := ISet []]}] = Panicked
  /\ ExpandSystemOrSingleUserAssignedMap tt
       [IMap {["type" := IString "SystemAssigned"]}] = Panicked
  /\ ExpandSystemOrSingleUserAssignedMap tt
       [IMap {["type" := IString "SystemAssigned";
               "identity_ids" := ISet [IOther]]}] = Panicked.
Proof.
  destruct (expand_untyped_panics tt []) as (H1 & H2 & H3 & H4).
  split; [|split; [|split]].
  - apply H1. intros raw. discriminate.
  - apply H2. intros s. vm_compute. discriminate.
  - apply (H3 _ "SystemAssigned"); [vm_compute; reflexivity|].
    intros l. vm_compute. discriminate.
  - apply (H4 _ "SystemAssigned" [] IOther []); [vm_compute; reflexivity
      |vm_compute; reflexivity|intros s; discriminate].
Defined.

Lemma round_trip_witness :
  exists outs : list string,
    returned (FlattenSystemOrSingleUserAssignedMap normalizeType_spec
                sampleParse sampleID ["/id-1"]
                (Some {| Type_ := TypeUserAssigned; PrincipalId := "";
                         TenantId := ""; IdentityIds := {["/id-1" := tt]} |}))
    = Ok [IMap (<["type" := IString TypeUserAssigned]>
               (<["identity_ids" := IStrings outs]>
               (<["principal_id" := IString ""]>
               (<["tenant_id" := IString ""]> ∅))))]
    /\ (forall out, out ∈ outs <->
          exists r, r ∈ ["/id-1"] /\ rendered sampleParse sampleID r out)
    /\ ((forall r, r ∈ ["/id-1"] -> rendered sampleParse sampleID r r) ->
        forall x, x ∈ outs <-> x ∈ ["/id-1"]).
Proof.
  refine (proj1 (round_trip tt normalizeType_spec sampleParse sampleID
                   _ _ TypeUserAssigned ["/id-1"] ["/id-1"] _ _)
            {["type" := IString "UserAssigned";
              "identity_ids" := ISet [IString "/id-1"]]} [] _ _ _ _ _).
  - reflexivity.
  - reflexivity.
  - right. reflexivity.
  - intros raw Hin. apply list_elem_of_singleton in Hin as ->.
    eexists. reflexivity.
  - vm_compute. reflexivity.
  - vm_compute. reflexivity.
  - vm_compute. reflexivity.
  - unfold rangeOrder. vm_compute. reflexivity.
Defined.

(** C5, as stated, fails twice.  An input of type [None] passes the
    checks of Expand, and flattening the expanded value gives the empty
    list, which has no [type].  An identity ID that parses but is not
    its own rendering comes back in its rendered form. *)
Lemma round_trip_counterexample :
  (ExpandSystemOrSingleUserAssignedMap tt
     [IMap {["type" := IString "None"; "identity_ids" := ISet []]}]
   = Returned {| Type_ := TypeNone; PrincipalId := ""; TenantId := "";
                 IdentityIds := ∅ |}
   /\ returned (FlattenSystemOrSingleUserAssignedMap normalizeType_spec
                  sampleParse sampleID []
                  (Some {| Type_ := TypeNone; PrincipalId := "";
                           TenantId := "";
                           IdentityIds := (∅ : gmap string unit) |}))
      = Ok [])
  /\ (ExpandSystemOrSingleUserAssignedMapFromModel tt
        [{| ModelType := TypeUserAssigned; ModelIdentityIds := ["/ID-1"];
            ModelPrincipalId := ""; ModelTenantId := "" |}]
      = Returned {| Type_ := TypeUserAssigned; PrincipalId := "";
                    TenantId := ""; IdentityIds := {["/ID-1" := tt]} |}
      /\ sampleParse "/ID-1" = Ok "/id-1"
      /\ returned (FlattenSystemOrSingleUserAssignedMapToModel
                     normalizeType_spec sampleParse sampleID ["/ID-1"]
                     (Some {| Type_ := TypeUserAssigned; PrincipalId := "";
                              TenantId := "";
                              IdentityIds := {["/ID-1" := tt]} |}))
         = Ok [{| ModelType := TypeUserAssigned; ModelIdentityIds := ["/id-1"];
                  ModelPrincipalId := ""; ModelTenantId := "" |}]
      /\ "/id-1" <> "/ID-1").
Proof.
  repeat split; try (vm_compute; reflexivity). discriminate.
Qed.


(** The same call on the sample parser: the parse error names the key,
    and so the message holds the key as it is, with its double quote,
    next to the quoted form, in which the double quote is escaped. *)
Example flatten_message_names_key :
  exists msg : string,
    returned (FlattenSystemOrSingleUserAssignedMap normalizeType_spec
                sampleParse sampleID [String "a" (String dquote "b")]
                (Some {| Type_ := TypeUserAssigned; PrincipalId := "";
                         TenantId := "";
                         IdentityIds :=
                           {[String "a" (String dquote "b") := tt]} |}))
    = Err msg
    /\ contains msg (String "a" (String dquote "b")) = true
    /\ contains msg
         (String dquote
            ("a" ++ String backslash (String dquote ("b" ++ String dquote ""))))
       = true.
Proof.
  eexists. split; [vm_compute; reflexivity|].
  split; vm_compute; reflexivity.
Qed.

Lemma flatten_empty_witness :
  returned (FlattenSystemOrSingleUserAssignedMap normalizeType_spec
              sampleParse sampleID ["id-1"]
              (Some {| Type_ := TypeNone; PrincipalId := ""; TenantId := "";
                       IdentityIds := {["id-1" := tt]} |})) = Ok []
  /\ parse_calls (FlattenSystemOrSingleUserAssignedMap normalizeType_spec
                    sampleParse sampleID ["id-1"]
                    (Some {| Type_ := TypeNone; PrincipalId := "";
                             TenantId := "";
                             IdentityIds := {["id-1" := tt]} |})) = []
  /\ returned (FlattenSystemOrSingleUserAssignedMapToModel normalizeType_spec
                 sampleParse sampleID ["id-1"]
                 (Some {| Type_ := TypeNone; PrincipalId := ""; TenantId := "";
                          IdentityIds := {["id-1" := tt]} |})) = Ok []
  /\ parse_calls (FlattenSystemOrSingleUserAssignedMapToModel
                    normalizeType_spec sampleParse sampleID ["id-1"]
                    (Some {| Type_ := TypeNone; PrincipalId := "";
                             TenantId := "";
                             IdentityIds := {["id-1" := tt]} |})) = [].
Proof.
  apply (proj2 (flatten_empty normalizeType_spec sampleParse sampleID ["id-1"])).
  - vm_compute. discriminate.
  - vm_compute. discriminate.
Defined.

(** * The further properties on concrete inputs *)

Lemma expand_blank_server_fields_witness :
  PrincipalId {| Type_ := TypeUserAssigned; PrincipalId := ""; TenantId := "";
                 IdentityIds := {["/id-1" := tt]} |} = ""
  /\ TenantId {| Type_ := TypeUserAssigned; PrincipalId := ""; TenantId := "";
                 IdentityIds := {["/id-1" := tt]} |} = "".
Proof.
  apply (expand_blank_server_fields tt).
  right.
  exists [{| ModelType := TypeUserAssigned; ModelIdentityIds := ["/id-1"];
             ModelPrincipalId := "p"; ModelTenantId := "t" |}].
  vm_compute. reflexivity.
Defined.

Lemma expand_built_ids_witness :
  Type_ {| Type_ := TypeUserAssigned; PrincipalId := ""; TenantId := "";
           IdentityIds := {["/id-1" := tt]} |} = TypeUserAssigned
  /\ forall k : string,
       IdentityIds {| Type_ := TypeUserAssigned; PrincipalId := "";
                      TenantId := ""; IdentityIds := {["/id-1" := tt]} |} !! k
       = if decide (k ∈ ["/id-1"; "/id-1"]) then Some tt else None.
Proof.
  apply (expand_built_ids tt TypeUserAssigned ["/id-1"; "/id-1"]).
  right.
  exists [{| ModelType := TypeUserAssigned;
             ModelIdentityIds := ["/id-1"; "/id-1"];
             ModelPrincipalId := ""; ModelTenantId := "" |}].
  split.
  - right. eexists _, _. repeat split.
  - vm_compute. reflexivity.
Defined.

Lemma expand_ids_as_set_witness :
  ExpandSystemOrSingleUserAssignedMapFromModel tt
    [{| ModelType := TypeSystemAssigned; ModelIdentityIds := ["/a"; "/b"; "/a"];
        ModelPrincipalId := ""; ModelTenantId := "" |}]
  = ExpandSystemOrSingleUserAssignedMapFromModel tt
      [{| ModelType := TypeSystemAssigned; ModelIdentityIds := ["/b"; "/a"];
          ModelPrincipalId := ""; ModelTenantId := "" |}].
Proof.
  apply (proj2 (expand_ids_as_set tt TypeSystemAssigned
                  ["/a"; "/b"; "/a"] ["/b"; "/a"]
                  ltac:(intros k; set_solver))).
  - right. eexists _, _. repeat split.
  - right. eexists _, _. repeat split.
Defined.

Lemma expand_variants_agree_witness :
  ExpandSystemOrSingleUserAssignedMap tt
    [IMap {["type" := IString "UserAssigned";
            "identity_ids" := ISet [IString "/id-1"; IString "/id-2"]]}]
  = ExpandSystemOrSingleUserAssignedMapFromModel tt
      [{| ModelType := TypeUserAssigned; ModelIdentityIds := ["/id-1"; "/id-2"];
          ModelPrincipalId := "p"; ModelTenantId := "t" |}].
Proof.
  apply (expand_variants_agree tt TypeUserAssigned ["/id-1"; "/id-2"]).
  - right. eexists _, [], "UserAssigned".
    split; [reflexivity|]. repeat split; vm_compute; reflexivity.
  - right. eexists _, _. repeat split.
Defined.

Lemma expand_result_type_witness :
  kindLiteral
    (Type_ {| Type_ := TypeNone; PrincipalId := ""; TenantId := "";
              IdentityIds := {["/id-1" := tt]} |}).
Proof.
  apply (proj1 (expand_result_type tt)
           [IMap {["type" := IString "SystemAssigned, UserAssigned";
                   "identity_ids" := ISet [IString "/id-1"]]}]).
  vm_compute. reflexivity.
Defined.

Lemma expand_system_assigned_witness :
  ExpandSystemOrSingleUserAssignedMapFromModel tt
    [{| ModelType := TypeSystemAssigned; ModelIdentityIds := ["/id-1"];
        ModelPrincipalId := ""; ModelTenantId := "" |}]
  = Failed errIdentityIdsNotAllowed.
Proof.
  apply (proj2 (expand_system_assigned tt ["/id-1"])).
  - right. eexists _, _. repeat split.
  - discriminate.
Defined.

Lemma expand_other_kind_witness :
  ExpandSystemOrSingleUserAssignedMapFromModel tt
    [{| ModelType := "SystemAssigned, UserAssigned";
        ModelIdentityIds := ["/id-1"; "/id-2"];
        ModelPrincipalId := ""; ModelTenantId := "" |}]
  = Returned {| Type_ := "SystemAssigned, UserAssigned"; PrincipalId := "";
                TenantId := "";
                IdentityIds := collectIds tt ["/id-1"; "/id-2"] ∅ |}.
Proof.
  apply (proj2 (expand_other_kind tt "SystemAssigned, UserAssigned"
                  ["/id-1"; "/id-2"] ltac:(discriminate) ltac:(discriminate))).
  right. eexists _, _. repeat split.
Defined.

Lemma marshal_type_witness :
  exists fields : gmap string json,
    MarshalJSON sampleMarshal
      (Some {| Type_ := "SystemAssigned, UserAssigned"; PrincipalId := "";
               TenantId := ""; IdentityIds := {["/id-1" := tt]} |})
    = JObject fields
    /\ fields !! "type" = Some (JString TypeNone).
Proof.
  destruct (marshal_type sampleMarshal
    (Some {| Type_ := "SystemAssigned, UserAssigned"; PrincipalId := "";
             TenantId := ""; IdentityIds := {["/id-1" := tt]} |}))
    as (fields & Hm & Ht & _ & _ & Hs).
  exists fields. split; [exact Hm|]. rewrite Ht.
  rewrite (proj2 (Hs _ eq_refl)) by discriminate. reflexivity.
Defined.

Lemma marshal_none_like_nil_witness :
  MarshalJSON sampleMarshal
    (Some {| Type_ := "SystemAssigned, UserAssigned"; PrincipalId := "p";
             TenantId := "t"; IdentityIds := {["/id-1" := tt]} |})
  = MarshalJSON sampleMarshal None.
Proof.
  apply marshal_none_like_nil; discriminate.
Defined.

Lemma marshal_after_expand_witness :
  exists id : string,
    ({["/id-1" := tt]} : gmap string unit) = {[id := tt]}
    /\ MarshalJSON sampleMarshal
         (Some {| Type_ := TypeUserAssigned; PrincipalId := ""; TenantId := "";
                  IdentityIds := {["/id-1" := tt]} |})
       = JObject (<["userAssignedIdentities" :=
                     JObject {[id := sampleMarshal tt]}]>
                    {["type" := JString TypeUserAssigned]}).
Proof.
  refine (proj1 (marshal_after_expand tt sampleMarshal
    {| Type_ := TypeUserAssigned; PrincipalId := ""; TenantId := "";
       IdentityIds := {["/id-1" := tt]} |} _) eq_refl).
  left.
  exists [IMap {["type" := IString "UserAssigned";
                 "identity_ids" := ISet [IString "/id-1"]]}].
  vm_compute. reflexivity.
Defined.


Lemma flatten_parse_calls_witness :
  (exists (pre : list string) (raw : string) (post : list string)
          (err : string),
     ["/ok"; "bad"; "/later"] = (pre ++ raw :: post)%list
     /\ (forall k, k ∈ pre -> exists id, sampleParse k = Ok id)
     /\ sampleParse raw = Err err
     /\ parse_calls
          (FlattenSystemOrSingleUserAssignedMap normalizeType_spec sampleParse
             sampleID ["/ok"; "bad"; "/later"]
             (Some {| Type_ := TypeSystemAssigned; PrincipalId := "";
                      TenantId := "";
                      IdentityIds :=
                        {["/ok" := tt; "bad" := tt; "/later" := tt]} |}))
        = (pre ++ [raw])%list
     /\ parse_calls
          (FlattenSystemOrSingleUserAssignedMapToModel normalizeType_spec
             sampleParse sampleID ["/ok"; "bad"; "/later"]
             (Some {| Type_ := TypeSystemAssigned; PrincipalId := "";
                      TenantId := "";
                      IdentityIds :=
                        {["/ok" := tt; "bad" := tt; "/later" := tt]} |}))
        = (pre ++ [raw])%list)
  /\ (parse_calls
        (FlattenSystemOrSingleUserAssignedMapToModel normalizeType_spec
           sampleParse sampleID ["/ID-1"]
           (Some {| Type_ := TypeUserAssigned; PrincipalId := "";
                    TenantId := ""; IdentityIds := {["/ID-1" := tt]} |}))
      = ["/ID-1"]
      /\ parse_calls
           (FlattenSystemOrSingleUserAssignedMap normalizeType_spec sampleParse
              sampleID ["/ID-1"]
              (Some {| Type_ := TypeUserAssigned; PrincipalId := "";
                       TenantId := ""; IdentityIds := {["/ID-1" := tt]} |}))
         = ["/ID-1"]
      /\ length (ModelIdentityIds
                   {| ModelType := TypeUserAssigned;
                      ModelIdentityIds := ["/id-1"];
                      ModelPrincipalId := ""; ModelTenantId := "" |})
         = size ({["/ID-1" := tt]} : gmap string unit)).
Proof.
  split.
  - refine (proj1 (proj2 (proj2 (flatten_parse_calls normalizeType_spec
                                   sampleParse sampleID
                                   ["/ok"; "bad"; "/later"] _))) _).
    left. eexists. vm_compute. reflexivity.
  - refine (proj2 (proj2 (proj2 (flatten_parse_calls normalizeType_spec
                                   sampleParse sampleID ["/ID-1"] _)))
              {| Type_ := TypeUserAssigned; PrincipalId := ""; TenantId := "";
                 IdentityIds := {["/ID-1" := tt]} |} _ eq_refl _ _).
    + unfold rangeOrder. vm_compute. reflexivity.
    + vm_compute. reflexivity.
Defined.

Lemma flatten_fails_iff_witness :
  isErr (returned
           (FlattenSystemOrSingleUserAssignedMap normalizeType_spec sampleParse
              sampleID ["id-1"]
              (Some {| Type_ := TypeUserAssigned; PrincipalId := "";
                       TenantId := ""; IdentityIds := {["id-1" := tt]} |}))).
Proof.
  refine (proj2 (proj1 (flatten_fails_iff normalizeType_spec sampleParse
                          sampleID ["id-1"]
                          {| Type_ := TypeUserAssigned; PrincipalId := "";
                             TenantId := "";
                             IdentityIds := {["id-1" := tt]} |} _ _)) _).
  - unfold rangeOrder. vm_compute. reflexivity.
  - right. reflexivity.
  - exists "id-1". eexists. split; [|reflexivity].
    vm_compute. eexists. reflexivity.
Defined.

Lemma flatten_order_irrelevant_witness :
  Forall2 (fun m1 m2 =>
             ModelType m1 = ModelType m2
             /\ ModelIdentityIds m1 ≡ₚ ModelIdentityIds m2
             /\ ModelPrincipalId m1 = ModelPrincipalId m2
             /\ ModelTenantId m1 = ModelTenantId m2)
    [{| ModelType := TypeSystemAssigned; ModelIdentityIds := ["/a"; "/b"];
        ModelPrincipalId := "p"; ModelTenantId := "t" |}]
    [{| ModelType := TypeSystemAssigned; ModelIdentityIds := ["/b"; "/a"];
        ModelPrincipalId := "p"; ModelTenantId := "t" |}].
Proof.
  refine (proj2 (proj2 (flatten_order_irrelevant normalizeType_spec sampleParse
                          sampleID ["/A"; "/b"] ["/b"; "/A"]
                          {| Type_ := TypeSystemAssigned; PrincipalId := "p";
                             TenantId := "t";
                             IdentityIds := {["/A" := tt; "/b" := tt]} |}
                          _ _)) _ _ _ _).
  - unfold rangeOrder. vm_compute. first [reflexivity | apply perm_swap].
  - unfold rangeOrder. vm_compute. first [reflexivity | apply perm_swap].
  - vm_compute. reflexivity.
  - vm_compute. reflexivity.
Defined.

Lemma expand_of_flatten_panics_witness :
  ExpandSystemOrSingleUserAssignedMap tt
    [IMap (<["type" := IString TypeUserAssigned]>
          (<["identity_ids" := IStrings ["/id-1"]]>
          (<["principal_id" := IString "p"]>
          (<["tenant_id" := IString "t"]> ∅))))]
  = Panicked.
Proof.
  apply (expand_of_flatten_panics tt normalizeType_spec sampleParse sampleID
           ["/ID-1"]
           (Some {| Type_ := TypeUserAssigned; PrincipalId := "p";
                    TenantId := "t"; IdentityIds := {["/ID-1" := tt]} |})).
  - vm_compute. reflexivity.
  - discriminate.
Defined.

Lemma expand_of_flatten_model_witness :
  ExpandSystemOrSingleUserAssignedMapFromModel tt
    [{| ModelType := TypeUserAssigned; ModelIdentityIds := ["/id-1"];
        ModelPrincipalId := "p"; ModelTenantId := "t" |}]
  = Returned {| Type_ := TypeUserAssigned; PrincipalId := ""; TenantId := "";
                IdentityIds := {[sampleID "/id-1" := tt]} |}.
Proof.
  refine (proj2 (proj2 (expand_of_flatten_model tt normalizeType_spec
                          sampleParse sampleID ["/ID-1"]
                          {| Type_ := TypeUserAssigned; PrincipalId := "p";
                             TenantId := "t";
                             IdentityIds := {["/ID-1" := tt]} |} _ _ _))
            eq_refl "/ID-1" tt "/id-1" eq_refl eq_refl).
  - unfold rangeOrder. vm_compute. reflexivity.
  - vm_compute. reflexivity.
Defined.

Lemma flatten_output_shape_witness :
  ([{| ModelType := TypeSystemAssigned; ModelIdentityIds := [];
       ModelPrincipalId := "p"; ModelTenantId := "t" |}] = []
   /\ (Some {| Type_ := TypeSystemAssigned; PrincipalId := "p"; TenantId := "t";
               IdentityIds := (∅ : gmap string unit) |} = None
       \/ exists s,
            Some {| Type_ := TypeSystemAssigned; PrincipalId := "p";
                    TenantId := "t"; IdentityIds := (∅ : gmap string unit) |}
            = Some s
            /\ normalizeType_spec (Type_ s) <> TypeSystemAssigned
            /\ normalizeType_spec (Type_ s) <> TypeUserAssigned))
  \/ (exists (s : SystemOrSingleUserAssignedMap)
             (m : ModelSystemAssignedUserAssigned),
        Some {| Type_ := TypeSystemAssigned; PrincipalId := "p"; TenantId := "t";
                IdentityIds := (∅ : gmap string unit) |} = Some s
        /\ [{| ModelType := TypeSystemAssigned; ModelIdentityIds := [];
               ModelPrincipalId := "p"; ModelTenantId := "t" |}] = [m]
        /\ ModelType m = normalizeType_spec (Type_ s)
        /\ (ModelType m = TypeSystemAssigned \/ ModelType m = TypeUserAssigned)
        /\ ModelPrincipalId m = PrincipalId s
        /\ ModelTenantId m = TenantId s).
Proof.
  apply (flatten_output_shape normalizeType_spec sampleParse sampleID []).
  vm_compute. reflexivity.
Defined.
